(** * TensileLite [ProblemMatchingLibrary]: a shallow embedding

    Source: [tensilelite/Tensile/Source/lib/include/Tensile/MatchingLibrary.hpp].

    The library wraps a (possibly null) shared pointer to a matching table and
    answers every query of the [SolutionLibrary] contract by delegating to the
    table and to the nested libraries stored in the table's rows.

    Conventions of the embedding:
    - a [std::shared_ptr<T>] is an [option T]; [None] is the null pointer;
    - dereferencing a null pointer and indexing a vector out of range are
      undefined behaviour in C++; both are the outcome [Fault];
    - [Debug::Instance()] is process-wide state read at call time: every
      computation receives the current [Debug] record;
    - what is written to [std::cout] is collected, in order, in the outcome;
    - [std::set<std::shared_ptr<MySolution>>] is a [gset (option Solution)]:
      membership is by solution identity, iteration order is not observable. *)

From stdpp Require Import base tactics option list gmap strings pretty sorting.

(** ** The diagnostics provider

    Only the three flags read by [MatchingLibrary.hpp] are modelled. *)
Record Debug : Type := {
  enableDebugSelection : bool;
  printPropertyEvaluation : bool;
  printLibraryLogicIndex : bool;
}.

(** ** Outcomes and the computation monad *)

Inductive Run (A : Type) : Type :=
  | Done (out : list string) (a : A)
  | Fault.
Global Arguments Done {A} out a.
Global Arguments Fault {A}.

Record M (A : Type) : Type := Comp { run : Debug → Run A }.
Global Arguments Comp {A} _.
Global Arguments run {A} _ _.

Global Instance M_ret : MRet M := λ A a, Comp (λ _, Done [] a).

Global Instance M_bind : MBind M := λ A B k c,
  Comp (λ dbg,
    match run c dbg with
    | Fault => Fault
    | Done o1 a =>
        match run (k a) dbg with
        | Fault => Fault
        | Done o2 b => Done (o1 ++ o2) b
        end
    end).

Global Instance M_fmap : FMap M := λ A B f c, a ← c; mret (f a).

(** [Debug::Instance().flag()] *)
Definition asks {A} (flag : Debug → A) : M A :=
  Comp (λ dbg, Done [] (flag dbg)).

(** [std::cout << s] *)
Definition cout (s : string) : M unit := Comp (λ _, Done [s] tt).

(** [std::endl] *)
Definition endl : string := String (Ascii.ascii_of_nat 10) EmptyString.

Definition fault {A} : M A := Comp (λ _, Fault).

(** [*p] and [p->] on a shared pointer *)
Definition deref {A} (p : option A) : M A :=
  match p with
  | Some a => mret a
  | None => fault
  end.

(** [v[i]] on a [std::vector] *)
Definition index {A} (v : list A) (i : nat) : M A := deref (v !! i).

(** [if(c) body] for a statement *)
Definition when (c : bool) (body : M unit) : M unit :=
  if c then body else mret tt.

(** [for(auto const& x : xs) acc = body(acc, x)] *)
Fixpoint for_each {A B} (xs : list A) (body : B → A → M B) (acc : B)
    : M B :=
  match xs with
  | [] => mret acc
  | x :: xs' => acc' ← body acc x; for_each xs' body acc'
  end.

(** The value and the printed text of an outcome. *)
Definition value {A} (r : Run A) : option A :=
  match r with
  | Done _ a => Some a
  | Fault => None
  end.

Definition output {A} (r : Run A) : list string :=
  match r with
  | Done out _ => out
  | Fault => []
  end.

Definition returns {A} (r : Run A) (a : A) : Prop := value r = Some a.

(** [concatenate(args...)] streams its arguments into one string. *)
Definition concatenate (args : list string) : string :=
  foldr String.append EmptyString args.

(** Modelled from the spec: the declaration of [SolutionLibrarySearchType] is
    not part of the source tree.  The source names [DEFAULT]; the spec speaks of
    one further kind of mode, exhaustive enumeration. *)
Inductive SolutionLibrarySearchType : Type :=
  | DEFAULT
  | EXHAUSTIVE.

Global Instance SolutionLibrarySearchType_eq_dec :
  EqDecision SolutionLibrarySearchType.
Proof. solve_decision. Defined.

(** A solution exposes the [libraryLogicIndex] member printed by
    [findTopSolutions]. *)
Class SolutionLike (Solution : Type) := {
  libraryLogicIndex : Solution → Z;
}.

(** The scalar type of a fitness ([double] in the source):
    [double_max] is [std::numeric_limits<double>::max()]. *)
Class Scalar (double : Type) := {
  double_max : double;
  double_le : relation double;
  double_le_dec :: RelDecision double_le;
}.

(** ** The [SolutionLibrary] contract

    The base class is declared outside the source tree; the interface below
    lists the virtual members that [MatchingLibrary.hpp] overrides or calls on
    a nested library.  [findBestSolutionBatch] is the overload of
    [findBestSolution] taking a vector of problems. *)
Module SolutionLibrary.
Section Interface.
Context {Problem Hardware Solution double : Type} `{Countable Solution}.

Record t : Type := {
  type : string;
  description : string;
  getSolutionByIndex :
    Problem → Hardware → Z → M (option Solution);
  findBestSolution :
    Problem → Hardware → option double → M (option Solution * option double);
  findBestSolutionBatch :
    list Problem → Hardware → option double →
    M (option Solution * option double);
  findAllSolutions :
    Problem → Hardware → SolutionLibrarySearchType →
    M (gset (option Solution));
  findAllSolutionsGroupedGemm :
    list Problem → Hardware → SolutionLibrarySearchType →
    M (gset (option Solution));
  findTopSolutions :
    Problem → Hardware → Z → M (list (option Solution));
  findTopSolutionsGroupedGemm :
    list Problem → Hardware → Z → M (list (option Solution));
}.
End Interface.
Global Arguments t _ _ _ _ {_ _}.
End SolutionLibrary.

(** ** The [Matching::MatchingTable<Object, Value, ReturnValue>] interface

    [PropertyMatching.hpp] is outside the source tree; the interface lists the
    members that [MatchingLibrary.hpp] calls.  A [Transform] maps the value of a
    row to a result; it runs nested library code, so it is a computation. *)
Module Matching.
Section Interface.
Context {Object Hardware Value ReturnValue double : Type}.

Definition Transform : Type := Value → M ReturnValue.

Record MatchingTable : Type := {
  description : string;
  findBestMatch : Object → Transform → M (ReturnValue * double);
  findBestEvaluationSolution : Object → Hardware → Transform → M ReturnValue;
  matchesInOrder : Object → list Value;
  GetAll : list Value;
  findTopMatch : Object → Transform → Z → M (list ReturnValue);
}.
End Interface.
Global Arguments Transform : clear implicits.
Global Arguments MatchingTable : clear implicits.
End Matching.

(** ** [ProblemMatchingLibrary<MyProblem, MySolution>] *)
Module ProblemMatchingLibrary.
Section Methods.
Context {MyProblem Hardware MySolution double : Type}.
Context `{Countable MySolution} `{!SolutionLike MySolution} `{!Scalar double}.

Local Abbreviation Element :=
  (SolutionLibrary.t MyProblem Hardware MySolution double).
Local Abbreviation Table :=
  (Matching.MatchingTable MyProblem Hardware Element (option MySolution) double).
Local Abbreviation Transform :=
  (Matching.Transform Element (option MySolution)).

(** [std::shared_ptr<Table> table] *)
Variable table : option Table.

Definition Type_ : string := "Matching".

Definition type : string := Type_.

Definition description : string :=
  match table with
  | None => concatenate [type; ", table: nullptr"]
  | Some tbl => concatenate [type; ": "; Matching.description tbl]
  end.

Definition getSolutionByIndex (problem : MyProblem) (hardware : Hardware)
    (index : Z) : M (option MySolution) :=
  let transform : Transform := λ library,
    SolutionLibrary.getSolutionByIndex library problem hardware index in
  tbl ← deref table;
  '(solution, fitness) ← Matching.findBestMatch tbl problem transform;
  mret solution.

(** The resolver of [findBestSolution] and [findTopSolutions]:
    [library->findBestSolution(problem, hardware)], with the defaulted null
    fitness pointer. *)
Definition bestSolutionTransform (problem : MyProblem) (hardware : Hardware)
    : Transform := λ library,
  fst <$> SolutionLibrary.findBestSolution library problem hardware None.

(** [fitness] is the cell the caller's pointer designates ([None] for the
    null pointer); the second component of the result is that cell after the
    call.  With a null pointer the matched fitness goes to [localFitness] and
    is dropped on return. *)
Definition findBestSolution (problem : MyProblem) (hardware : Hardware)
    (fitness : option double) : M (option MySolution * option double) :=
  useDebugSelection ← asks enableDebugSelection;
  let transform := bestSolutionTransform problem hardware in
  if useDebugSelection : bool then
    tbl ← deref table;
    evaluationSolution ←
      Matching.findBestEvaluationSolution tbl problem hardware transform;
    mret (evaluationSolution, fitness)
  else
    let localFitness := double_max in
    tbl ← deref table;
    '(solution, matched) ← Matching.findBestMatch tbl problem transform;
    mret (solution,
          match fitness with
          | Some _ => Some matched
          | None => None
          end).

(** The initialiser of [matches] in [findAllSolutions]. *)
Definition matchesFor (tbl : Table) (problem : MyProblem)
    (searchType : SolutionLibrarySearchType) : list Element :=
  if decide (searchType ≠ DEFAULT)
  then Matching.GetAll tbl
  else Matching.matchesInOrder tbl problem.

(** The body of the loop over [matches], for a given nested call. *)
Definition unionRow (debug : bool)
    (nested : Element → M (gset (option MySolution)))
    (rv : gset (option MySolution)) (row : Element)
    : M (gset (option MySolution)) :=
  when debug (cout (SolutionLibrary.description row);; cout endl);;
  rowSolutions ← nested row;
  let rv := rv ∪ rowSolutions in
  when debug (cout endl);;
  mret rv.

Definition findAllSolutions (problem : MyProblem) (hardware : Hardware)
    (searchType : SolutionLibrarySearchType) : M (gset (option MySolution)) :=
  debug ← asks printPropertyEvaluation;
  tbl ← deref table;
  let matches := matchesFor tbl problem searchType in
  for_each matches
    (unionRow debug (λ row,
       SolutionLibrary.findAllSolutions row problem hardware searchType))
    ∅.

(** The initialiser of [matches] in [findAllSolutionsGroupedGemm]:
    [problems[0]] is evaluated in the [DEFAULT] branch of the conditional
    expression only. *)
Definition matchesForGroupedGemm (tbl : Table) (problems : list MyProblem)
    (searchType : SolutionLibrarySearchType) : M (list Element) :=
  if decide (searchType ≠ DEFAULT)
  then mret (Matching.GetAll tbl)
  else problem0 ← index problems 0;
       mret (Matching.matchesInOrder tbl problem0).

Definition findAllSolutionsGroupedGemm (problems : list MyProblem)
    (hardware : Hardware) (searchType : SolutionLibrarySearchType)
    : M (gset (option MySolution)) :=
  debug ← asks printPropertyEvaluation;
  tbl ← deref table;
  matches ← matchesForGroupedGemm tbl problems searchType;
  for_each matches
    (unionRow debug (λ row,
       SolutionLibrary.findAllSolutionsGroupedGemm
         row problems hardware searchType))
    ∅.

(** The diagnostic block of [findTopSolutions]. *)
Definition printTopSolutions (solutions : list (option MySolution)) : M unit :=
  if bool_decide (solutions ≠ [])
  then
    cout "Library logic index of top solutions: ";;
    for_each solutions
      (λ _ rv, s ← deref rv;
               cout (pretty (libraryLogicIndex s));; cout ", ") tt;;
    cout endl
  else
    cout "No solution found";; cout endl.

Definition findTopSolutions (problem : MyProblem) (hardware : Hardware)
    (numSolutions : Z) : M (list (option MySolution)) :=
  let transform := bestSolutionTransform problem hardware in
  tbl ← deref table;
  solutions ← Matching.findTopMatch tbl problem transform numSolutions;
  printIndex ← asks printLibraryLogicIndex;
  when printIndex (printTopSolutions solutions);;
  mret solutions.

(** The resolver of [findTopSolutionsGroupedGemm]:
    [library->findBestSolution(problems, hardware)], the batch overload. *)
Definition bestSolutionBatchTransform (problems : list MyProblem)
    (hardware : Hardware) : Transform := λ library,
  fst <$> SolutionLibrary.findBestSolutionBatch library problems hardware None.

Definition findTopSolutionsGroupedGemm (problems : list MyProblem)
    (hardware : Hardware) (numSolutions : Z) : M (list (option MySolution)) :=
  let transform := bestSolutionBatchTransform problems hardware in
  tbl ← deref table;
  problem0 ← index problems 0;
  solutions ← Matching.findTopMatch tbl problem0 transform numSolutions;
  mret solutions.

(** [struct ProblemMatchingLibrary : public SolutionLibrary]: the library as a
    value of the contract.  The batch overload of [findBestSolution] is not
    overridden by the source; the inherited member is a parameter. *)
Definition library
    (inheritedFindBestSolutionBatch :
       list MyProblem → Hardware → option double →
       M (option MySolution * option double)) : Element :=
  {| SolutionLibrary.type := type;
     SolutionLibrary.description := description;
     SolutionLibrary.getSolutionByIndex := getSolutionByIndex;
     SolutionLibrary.findBestSolution := findBestSolution;
     SolutionLibrary.findBestSolutionBatch := inheritedFindBestSolutionBatch;
     SolutionLibrary.findAllSolutions := findAllSolutions;
     SolutionLibrary.findAllSolutionsGroupedGemm := findAllSolutionsGroupedGemm;
     SolutionLibrary.findTopSolutions := findTopSolutions;
     SolutionLibrary.findTopSolutionsGroupedGemm := findTopSolutionsGroupedGemm |}.
End Methods.
End ProblemMatchingLibrary.


(** ** The Matching Table of the specification

    The implementation of the table ([PropertyMatching.hpp]) is outside the
    source tree.  This module states the table the way the specification
    describes it (sections 3 and 4.1), so that the library can be run on a
    table with rows. *)
Module MatchingTableSpec.
Section Table.
Context {Object Hardware Point Value Solution double : Type}.
Context `{EqDecision Solution} `{!Scalar double}.

(** Modelled from the spec: a MatchingRow is one benchmarked reference point, a
    point in property space with its nested library and an optional logic
    index used for diagnostics only. *)
Record MatchingRow : Type := {
  point : Point;
  nestedLibrary : Value;
  logicIndex : option Z;
}.

(** Modelled from the spec: a MatchingTable is a distance function fixed at
    construction and the rows in insertion order; the evaluation policy of the
    debug-selection path is pluggable; [summary] is the table's description. *)
Record t : Type := {
  rows : list MatchingRow;
  distance : Object → Point → double;
  evaluationPolicy : Object → Hardware → list Solution → option Solution;
  summary : string;
}.

Local Abbreviation Resolve := (Matching.Transform Value (option Solution)).

(** Modelled from the spec: insertion of a row into a ranked sequence, before
    the first row that is not closer; an earlier row of equal distance stays
    first (ties broken by insertion order). *)
Fixpoint insertRanked (d : MatchingRow → double) (r : MatchingRow)
    (ranked : list MatchingRow) : list MatchingRow :=
  match ranked with
  | [] => [r]
  | r' :: rest =>
      if decide (double_le (d r) (d r'))
      then r :: r' :: rest
      else r' :: insertRanked d r rest
  end.

(** Modelled from the spec: [rankedRows(problem)] is the rows in ascending
    distance order, nearest first, ties in insertion order. *)
Definition rankedRows (tbl : t) (problem : Object) : list MatchingRow :=
  foldr (insertRanked (λ r, distance tbl problem (point r))) [] (rows tbl).

(** Modelled from the spec: [allRows()] is every row, not ordered by
    distance. *)
Definition allRows (tbl : t) : list MatchingRow := rows tbl.

(** Modelled from the spec: the walk of [findBestMatch] over ranked rows; the
    first non-empty resolution is returned with its row's distance, and
    exhausted rows give no solution with the sentinel fitness. *)
Fixpoint bestWalk (d : MatchingRow → double) (resolve : Resolve)
    (ranked : list MatchingRow) : M (option Solution * double) :=
  match ranked with
  | [] => mret (None, double_max)
  | r :: rest =>
      resolved ← resolve (nestedLibrary r);
      match resolved with
      | Some s => mret (Some s, d r)
      | None => bestWalk d resolve rest
      end
  end.

(** Modelled from the spec: [findBestMatch(problem, resolve)]. *)
Definition findBestMatch (tbl : t) (problem : Object) (resolve : Resolve)
    : M (option Solution * double) :=
  bestWalk (λ r, distance tbl problem (point r)) resolve (rankedRows tbl problem).

(** Modelled from the spec: the walk of [findTopMatch]; it stops once [k]
    solutions are collected or the rows are exhausted, keeps the order of the
    walk, and collects a solution once (by solution identity).  Each collected
    solution is kept with the row that resolved to it. *)
Fixpoint topWalk (resolve : Resolve) (k : Z) (ranked : list MatchingRow)
    (collected : list (MatchingRow * Solution))
    : M (list (MatchingRow * Solution)) :=
  match ranked with
  | [] => mret collected
  | r :: rest =>
      if decide (k ≤ Z.of_nat (length collected))%Z
      then mret collected
      else
        resolved ← resolve (nestedLibrary r);
        match resolved with
        | Some s =>
            if decide (s ∈ collected.*2)
            then topWalk resolve k rest collected
            else topWalk resolve k rest (collected ++ [(r, s)])
        | None => topWalk resolve k rest collected
        end
  end.

(** Modelled from the spec: [findTopMatch(problem, resolve, k)]. *)
Definition findTopMatch (tbl : t) (problem : Object) (resolve : Resolve)
    (k : Z) : M (list (option Solution)) :=
  collected ← topWalk resolve k (rankedRows tbl problem) [];
  mret (Some <$> collected.*2).

(** Modelled from the spec: the candidates of the evaluation path, every
    non-empty resolution over the ranked rows. *)
Fixpoint candidates (resolve : Resolve) (ranked : list MatchingRow)
    : M (list Solution) :=
  match ranked with
  | [] => mret []
  | r :: rest =>
      resolved ← resolve (nestedLibrary r);
      found ← candidates resolve rest;
      mret (match resolved with
            | Some s => s :: found
            | None => found
            end)
  end.

(** Modelled from the spec: [findBestEvaluationSolution(problem, hardware,
    resolve)] evaluates the candidates of all rows and lets the pluggable
    policy choose; a table without candidates gives no solution. *)
Definition findBestEvaluationSolution (tbl : t) (problem : Object)
    (hardware : Hardware) (resolve : Resolve) : M (option Solution) :=
  found ← candidates resolve (rankedRows tbl problem);
  mret (match found with
        | [] => None
        | _ :: _ => evaluationPolicy tbl problem hardware found
        end).

(** Modelled from the spec: the table as a value of the interface, with
    [rankedRows] for [matchesInOrder], [allRows] for [GetAll] and the summary
    for [description]; a row is handed out as its nested library. *)
Definition table (tbl : t)
    : Matching.MatchingTable Object Hardware Value (option Solution) double :=
  {| Matching.description := summary tbl;
     Matching.findBestMatch := findBestMatch tbl;
     Matching.findBestEvaluationSolution := findBestEvaluationSolution tbl;
     Matching.matchesInOrder := λ problem, nestedLibrary <$> rankedRows tbl problem;
     Matching.GetAll := nestedLibrary <$> allRows tbl;
     Matching.findTopMatch := findTopMatch tbl |}.
End Table.
Global Arguments MatchingRow : clear implicits.
Global Arguments t : clear implicits.
End MatchingTableSpec.


(** ** What a table answers

    The library sees a table through the answers of its operations only.  The
    predicate below speaks about these answers; it is stated over the
    interface, for any implementation of the table. *)
Section Answers.
Context {Object Hardware Value ReturnValue double : Type}.

Local Abbreviation Table :=
  (Matching.MatchingTable Object Hardware Value ReturnValue double).

(** Modelled from the spec: the answers of a table with zero rows (sections 3
    and 4.1).  There is no row to hand out; [findBestMatch] gives no solution
    with the sentinel fitness; the evaluation path gives no solution;
    [findTopMatch] gives the empty sequence.  [null] is the empty result and
    [sentinel] the fitness standing for unbounded distance. *)
Definition answersAsEmpty (tbl : Table) (dbg : Debug) (null : ReturnValue)
    (sentinel : double) : Prop :=
  Matching.GetAll tbl = []
  ∧ (∀ object, Matching.matchesInOrder tbl object = [])
  ∧ (∀ object transform,
       run (Matching.findBestMatch tbl object transform) dbg
       = Done [] (null, sentinel))
  ∧ (∀ object hardware transform,
       run (Matching.findBestEvaluationSolution tbl object hardware transform)
           dbg
       = Done [] null)
  ∧ (∀ object transform k,
       run (Matching.findTopMatch tbl object transform k) dbg = Done [] []).
End Answers.

(** ** Sample instances

    Problems and row points are sizes, a solution is its identity, distances
    are integers, and the sentinel is the integer value of the largest finite
    double. *)
Module Sample.

Global Instance nat_solution : SolutionLike nat :=
  {| libraryLogicIndex := Z.of_nat |}.

Global Instance Z_scalar : Scalar Z :=
  {| double_max := (2 ^ 1024 - 2 ^ 971)%Z; double_le := Z.le |}.

Abbreviation Library := (SolutionLibrary.t nat unit nat Z).
Abbreviation Row := (MatchingTableSpec.MatchingRow nat Library).
Abbreviation SpecTable := (MatchingTableSpec.t nat unit nat Library nat Z).

(** A leaf library that answers every query with the solution [s], or with
    nothing when [s] is [None]. *)
Definition leaf (s : option nat) : Library :=
  {| SolutionLibrary.type := "Leaf";
     SolutionLibrary.description := "Leaf";
     SolutionLibrary.getSolutionByIndex := λ _ _ _, mret s;
     SolutionLibrary.findBestSolution := λ _ _ fitness, mret (s, fitness);
     SolutionLibrary.findBestSolutionBatch := λ _ _ fitness, mret (s, fitness);
     SolutionLibrary.findAllSolutions := λ _ _ _,
       mret (match s with Some _ => {[ s ]} | None => ∅ end);
     SolutionLibrary.findAllSolutionsGroupedGemm := λ _ _ _,
       mret (match s with Some _ => {[ s ]} | None => ∅ end);
     SolutionLibrary.findTopSolutions := λ _ _ _,
       mret (match s with Some _ => [s] | None => [] end);
     SolutionLibrary.findTopSolutionsGroupedGemm := λ _ _ _,
       mret (match s with Some _ => [s] | None => [] end) |}.

Definition row (pt : nat) (s : option nat) : Row :=
  {| MatchingTableSpec.point := pt;
     MatchingTableSpec.nestedLibrary := leaf s;
     MatchingTableSpec.logicIndex := None |}.

Definition rowOf (pt : nat) (nested : Library) : Row :=
  {| MatchingTableSpec.point := pt;
     MatchingTableSpec.nestedLibrary := nested;
     MatchingTableSpec.logicIndex := None |}.

Definition absDistance (problem pt : nat) : Z :=
  Z.abs (Z.of_nat problem - Z.of_nat pt).

(** The evaluation policy of the samples prefers the last candidate. *)
Definition tableOf (rs : list Row) : SpecTable :=
  {| MatchingTableSpec.rows := rs;
     MatchingTableSpec.distance := absDistance;
     MatchingTableSpec.evaluationPolicy := λ _ _ found, last found;
     MatchingTableSpec.summary := "Table" |}.

Definition emptyTable : SpecTable := tableOf [].

(** Rows at distances 5 and 2 from the problem [0], inserted in that order. *)
Definition twoRows : SpecTable := tableOf [row 5 (Some 50); row 2 (Some 20)].

Definition twoRowsNearestEmpty : SpecTable :=
  tableOf [row 5 (Some 50); row 2 None].

Definition unresolvedRows : SpecTable := tableOf [row 5 None; row 2 None].

(** Five rows; the rows of rank 2 and 4 from the problem [0] do not resolve. *)
Definition fiveRows : SpecTable :=
  tableOf [row 4 None; row 1 (Some 10); row 5 (Some 50); row 2 None;
           row 3 (Some 30)].

(** A matching library as the nested library of a row of another one; the
    inherited batch overload of the inner library resolves to nothing. *)
Definition matchingLibrary (table : option (Matching.MatchingTable nat unit
                                               Library (option nat) Z))
    : Library :=
  ProblemMatchingLibrary.library table (λ _ _ fitness, mret (None, fitness)).

Definition nestedRows : SpecTable :=
  tableOf [rowOf 1
             (matchingLibrary (Some (MatchingTableSpec.table twoRows)))].

Definition nestedNullRows : SpecTable :=
  tableOf [rowOf 1 (matchingLibrary None)].

Definition quiet : Debug :=
  {| enableDebugSelection := false;
     printPropertyEvaluation := false;
     printLibraryLogicIndex := false |}.

Definition debugSelection : Debug :=
  {| enableDebugSelection := true;
     printPropertyEvaluation := false;
     printLibraryLogicIndex := false |}.

Definition verbose : Debug :=
  {| enableDebugSelection := false;
     printPropertyEvaluation := true;
     printLibraryLogicIndex := true |}.

(** The matching library over a table of the specification. *)
Definition libraryOver (tbl : SpecTable) :=
  Some (MatchingTableSpec.table tbl).

End Sample.

(** ** What the loop of [findAllSolutions] prints around one row

    [description] is the row's description and [nestedOut] the text printed by
    the nested call; [debug] is the [printPropertyEvaluation] flag. *)
Definition rowTrace (debug : bool) (description : string)
    (nestedOut : list string) : list string :=
  (if debug then [description; endl] else [])
  ++ nestedOut
  ++ (if debug then [endl] else []).

(** ** What the diagnostic block of [findTopSolutions] prints

    [resolved] are the solutions of a result without null pointers, in rank
    order. *)
Definition topSolutionsTrace {Solution} `{!SolutionLike Solution}
    (resolved : list Solution) : list string :=
  match resolved with
  | [] => ["No solution found"; endl]
  | _ :: _ =>
      "Library logic index of top solutions: "
      :: concat ((λ s, [pretty (libraryLogicIndex s); ", "]) <$> resolved)
      ++ [endl]
  end.

(** ** A table with fixed answers

    An implementation of the table interface that answers every query with
    the values it was built from, whatever the problem and the resolver; it
    serves to run the library on answers a table may give. *)
Module Stub.

Definition table (best : option nat * Z) (top : list (option nat))
    (rows : list Sample.Library)
    : Matching.MatchingTable nat unit Sample.Library (option nat) Z :=
  {| Matching.description := "Stub";
     Matching.findBestMatch := λ _ _, mret best;
     Matching.findBestEvaluationSolution := λ _ _ _, mret best.1;
     Matching.matchesInOrder := λ _, rows;
     Matching.GetAll := rows;
     Matching.findTopMatch := λ _ _ _, mret top |}.

(** A leaf library whose operations all dereference a null pointer. *)
Definition faulty : Sample.Library :=
  {| SolutionLibrary.type := "Faulty";
     SolutionLibrary.description := "Faulty";
     SolutionLibrary.getSolutionByIndex := λ _ _ _, fault;
     SolutionLibrary.findBestSolution := λ _ _ _, fault;
     SolutionLibrary.findBestSolutionBatch := λ _ _ _, fault;
     SolutionLibrary.findAllSolutions := λ _ _ _, fault;
     SolutionLibrary.findAllSolutionsGroupedGemm := λ _ _ _, fault;
     SolutionLibrary.findTopSolutions := λ _ _ _, fault;
     SolutionLibrary.findTopSolutionsGroupedGemm := λ _ _ _, fault |}.

End Stub.

(** ** [simpleGemmScaleAB]: what is done with the heuristic results

    Source: [clients/samples/15_gemm_scale_a_b/
    sample_hipblaslt_gemm_with_scale_a_b.cpp], lines 194 to 234.  The calls
    into the HIP and hipBLASLt APIs are outside the source tree; the model
    starts after [hipblasLtMatmulAlgoGetHeuristic] has filled
    [heuristicResult] and [returnedAlgoCount], and ends with the arguments
    handed to [hipblasLtMatmul].  [heuristicResult] is the array of the
    [workspaceSize] members; sizes are 64-bit unsigned integers, an access
    past the array is undefined behaviour ([None]). *)
Module GemmScaleAB.

(** [const int request_solutions = 5], the length of [heuristicResult]. *)
Definition request_solutions : nat := 5.

(** The conversion of an [int64_t] to [uint64_t]. *)
Definition to_uint64 (z : Z) : Z := (z `mod` 2 ^ 64)%Z.

(** The loop of lines 215 and 216, with [remaining] iterations left at index
    [i]. *)
Fixpoint workspaceLoop (heuristicResult : list Z) (remaining i : nat)
    (workspace_size : Z) : option Z :=
  match remaining with
  | O => Some workspace_size
  | S remaining' =>
      workspaceSize ← heuristicResult !! i;
      workspaceLoop heuristicResult remaining' (S i)
        (Z.max workspace_size workspaceSize)
  end.

(** Lines 214 to 216: [workspace_size] after the loop. *)
Definition workspaceSize (max_workspace_size : Z) (heuristicResult : list Z)
    (returnedAlgoCount : Z) : option Z :=
  workspaceLoop heuristicResult (Z.to_nat returnedAlgoCount) 0
    (to_uint64 max_workspace_size).

(** How the function ends: with the message that no solution is valid, or
    with [hipblasLtMatmul] called on the algorithm of [heuristicResult[algo]]
    and a workspace of [workspaceSizeInBytes]. *)
Inductive Launch : Type :=
  | NoValidSolution
  | Matmul (algo : nat) (workspaceSizeInBytes : Z).

(** Lines 208 to 234. *)
Definition launch (max_workspace_size : Z) (heuristicResult : list Z)
    (returnedAlgoCount : Z) : option Launch :=
  if decide (returnedAlgoCount = 0%Z)
  then Some NoValidSolution
  else
    workspace_size ←
      workspaceSize max_workspace_size heuristicResult returnedAlgoCount;
    _ ← heuristicResult !! 0%nat;
    Some (Matmul 0 workspace_size).

End GemmScaleAB.

(** * Properties *)

(** ** Scenarios of the specification, run on the samples *)

Example scenario_two_rows :
  run (ProblemMatchingLibrary.findBestSolution
         (Sample.libraryOver Sample.twoRows) 0 tt (Some 0%Z)) Sample.quiet
  = Done [] (Some 20, Some 2%Z).
Proof. vm_compute. reflexivity. Qed.

Example scenario_two_rows_fall_through :
  run (ProblemMatchingLibrary.findBestSolution
         (Sample.libraryOver Sample.twoRowsNearestEmpty) 0 tt (Some 0%Z))
      Sample.quiet
  = Done [] (Some 50, Some 5%Z).
Proof. vm_compute. reflexivity. Qed.

Example scenario_top_three_of_five :
  run (ProblemMatchingLibrary.findTopSolutions
         (Sample.libraryOver Sample.fiveRows) 0 tt 3) Sample.quiet
  = Done [] [Some 10; Some 30; Some 50].
Proof. vm_compute. reflexivity. Qed.

Example scenario_top_three_printed :
  run (ProblemMatchingLibrary.findTopSolutions
         (Sample.libraryOver Sample.fiveRows) 0 tt 2) Sample.verbose
  = Done ["Library logic index of top solutions: "; "10"; ", "; "30"; ", "; endl]
         [Some 10; Some 30].
Proof. vm_compute. reflexivity. Qed.

Example scenario_nested_library :
  run (ProblemMatchingLibrary.findBestSolution
         (Sample.libraryOver Sample.nestedRows) 0 tt (Some 0%Z)) Sample.quiet
  = Done [] (Some 20, Some 1%Z).
Proof. vm_compute. reflexivity. Qed.

Example scenario_nested_null_table :
  run (ProblemMatchingLibrary.findBestSolution
         (Sample.libraryOver Sample.nestedNullRows) 0 tt (Some 0%Z))
      Sample.quiet
  = Fault.
Proof. vm_compute. reflexivity. Qed.

Example scenario_all_solutions :
  run (ProblemMatchingLibrary.findAllSolutions
         (Sample.libraryOver Sample.twoRowsNearestEmpty) 0 tt DEFAULT)
      Sample.verbose
  = Done ["Leaf"; endl; endl; "Leaf"; endl; endl] {[ Some 50 ]}.
Proof. vm_compute. reflexivity. Qed.

(** ** Laws of the computation monad *)

Lemma run_bind {A B} (c : M A) (k : A → M B) dbg :
  run (c ≫= k) dbg =
  match run c dbg with
  | Fault => Fault
  | Done o1 a =>
      match run (k a) dbg with
      | Fault => Fault
      | Done o2 b => Done (o1 ++ o2) b
      end
  end.
Proof. reflexivity. Qed.

Lemma run_ret {A} (a : A) dbg : run (mret a) dbg = Done [] a.
Proof. reflexivity. Qed.

Lemma run_fmap {A B} (f : A → B) (c : M A) dbg :
  run (f <$> c) dbg =
  match run c dbg with
  | Fault => Fault
  | Done o a => Done o (f a)
  end.
Proof.
  unfold fmap, M_fmap. rewrite run_bind.
  destruct (run c dbg) as [o a|]; [|done].
  rewrite run_ret. by rewrite app_nil_r.
Qed.

Lemma run_bind_Done {A B} (c : M A) (k : A → M B) dbg o a :
  run c dbg = Done o a →
  run (c ≫= k) dbg =
  match run (k a) dbg with
  | Fault => Fault
  | Done o2 b => Done (o ++ o2) b
  end.
Proof. intros Hc. by rewrite run_bind, Hc. Qed.

Lemma run_bind_pure {A B} (c : M A) (k : A → M B) dbg a :
  run c dbg = Done [] a → run (c ≫= k) dbg = run (k a) dbg.
Proof.
  intros Hc. rewrite (run_bind_Done _ _ _ _ _ Hc).
  by destruct (run (k a) dbg).
Qed.

Lemma append_empty_r (s : string) : s +:+ "" = s.
Proof.
  induction s as [|c s IH]; [done|].
  change (String c (s +:+ "") = String c s). by rewrite IH.
Qed.

Lemma run_deref_bind {A B} (a : A) (k : A → M B) dbg :
  run (deref (Some a) ≫= k) dbg = run (k a) dbg.
Proof. by apply run_bind_pure. Qed.

Lemma for_each_total {A} (body : unit → A → M unit) (xs : list A) dbg :
  (∀ x, x ∈ xs → ∃ o, run (body tt x) dbg = Done o tt) →
  ∃ out, run (for_each xs body tt) dbg = Done out tt.
Proof.
  induction xs as [|x rest IH]; intros Hbody; [by eexists|].
  cbn [for_each]. destruct (Hbody x) as [o Hx]; [by left|].
  rewrite (run_bind_Done _ _ _ _ _ Hx).
  destruct IH as [out Hrest]; [intros; apply Hbody; by right|].
  rewrite Hrest. by eexists.
Qed.

Section Properties.
Context {MyProblem Hardware MySolution double : Type}.
Context `{Countable MySolution} `{!SolutionLike MySolution} `{!Scalar double}.

Local Abbreviation Element :=
  (SolutionLibrary.t MyProblem Hardware MySolution double).
Local Abbreviation Table :=
  (Matching.MatchingTable MyProblem Hardware Element (option MySolution) double).

Implicit Types (table : option Table) (tbl : Table) (dbg : Debug).
Implicit Types (problem : MyProblem) (problems : list MyProblem).
Implicit Types (hardware : Hardware) (fitness : option double).
Implicit Types (searchType : SolutionLibrarySearchType) (k index : Z).

(** C8: [description()] is a total string-valued function of the library
    state.  With a null table it is the type name followed by the note
    [", table: nullptr"]; otherwise it is the type name, [": "] and the
    table's own description. *)
Theorem description_total :
  ProblemMatchingLibrary.type = "Matching"
  ∧ ProblemMatchingLibrary.description (None : option Table)
    = ProblemMatchingLibrary.type +:+ ", table: nullptr"
  ∧ ∀ tbl,
      ProblemMatchingLibrary.description (Some tbl)
      = ProblemMatchingLibrary.type +:+ ": " +:+ Matching.description tbl.
Proof.
  split; [reflexivity|]. split; [reflexivity|]. intros tbl.
  unfold ProblemMatchingLibrary.description, concatenate. simpl.
  by rewrite append_empty_r.
Qed.

(** *** The two branches of [findBestSolution] *)

Lemma findBestSolution_nearest tbl problem hardware fitness dbg :
  enableDebugSelection dbg = false →
  run (ProblemMatchingLibrary.findBestSolution (Some tbl) problem hardware
         fitness) dbg
  = run (matched ←
           Matching.findBestMatch tbl problem
             (ProblemMatchingLibrary.bestSolutionTransform problem hardware);
         mret (matched.1, (λ _, matched.2) <$> fitness)) dbg.
Proof.
  intros Hflag. unfold ProblemMatchingLibrary.findBestSolution.
  rewrite run_bind. simpl. rewrite Hflag. simpl.
  destruct (run _ dbg) as [o [solution matched]|]; simpl; [|done].
  by destruct fitness.
Qed.

Lemma findBestSolution_evaluation tbl problem hardware fitness dbg :
  enableDebugSelection dbg = true →
  run (ProblemMatchingLibrary.findBestSolution (Some tbl) problem hardware
         fitness) dbg
  = run (evaluationSolution ←
           Matching.findBestEvaluationSolution tbl problem hardware
             (ProblemMatchingLibrary.bestSolutionTransform problem hardware);
         mret (evaluationSolution, fitness)) dbg.
Proof.
  intros Hflag. unfold ProblemMatchingLibrary.findBestSolution.
  rewrite run_bind. simpl. rewrite Hflag. simpl.
  by destruct (run _ dbg) as [o solution|].
Qed.

(** C5: with the debug-selection flag set at the time of the call,
    [findBestSolution] is the table's [findBestEvaluationSolution] run with the
    best-solution resolver; its solution is returned and the caller's fitness
    cell is left as it was.  Nothing else of the table takes part: two tables
    with the same evaluation member give the same outcome, whatever their
    [findBestMatch]. *)
Theorem findBestSolution_debug_selection tbl problem hardware fitness dbg :
  enableDebugSelection dbg = true →
  run (ProblemMatchingLibrary.findBestSolution (Some tbl) problem hardware
         fitness) dbg
  = run (evaluationSolution ←
           Matching.findBestEvaluationSolution tbl problem hardware
             (ProblemMatchingLibrary.bestSolutionTransform problem hardware);
         mret (evaluationSolution, fitness)) dbg
  ∧ ∀ tbl',
      Matching.findBestEvaluationSolution tbl'
        = Matching.findBestEvaluationSolution tbl →
      run (ProblemMatchingLibrary.findBestSolution (Some tbl') problem hardware
             fitness) dbg
      = run (ProblemMatchingLibrary.findBestSolution (Some tbl) problem
               hardware fitness) dbg.
Proof.
  intros Hflag. split; [by apply findBestSolution_evaluation|].
  intros tbl' Heval.
  rewrite !findBestSolution_evaluation by done. by rewrite Heval.
Qed.

(** C10: with a null table every query operation dereferences the null
    pointer, for every argument and every state of the diagnostic flags;
    [description()] and [type()] alone are defined there. *)
Theorem null_table_faults problem problems hardware fitness searchType k index
    dbg :
  let table : option Table := None in
  run (ProblemMatchingLibrary.getSolutionByIndex table problem hardware index)
      dbg = Fault
  ∧ run (ProblemMatchingLibrary.findBestSolution table problem hardware fitness)
        dbg = Fault
  ∧ run (ProblemMatchingLibrary.findAllSolutions table problem hardware
           searchType) dbg = Fault
  ∧ run (ProblemMatchingLibrary.findAllSolutionsGroupedGemm table problems
           hardware searchType) dbg = Fault
  ∧ run (ProblemMatchingLibrary.findTopSolutions table problem hardware k) dbg
    = Fault
  ∧ run (ProblemMatchingLibrary.findTopSolutionsGroupedGemm table problems
           hardware k) dbg = Fault
  ∧ ProblemMatchingLibrary.description table = "Matching, table: nullptr"
  ∧ ProblemMatchingLibrary.type = "Matching".
Proof.
  simpl. repeat split; try reflexivity.
  unfold ProblemMatchingLibrary.findBestSolution. simpl.
  by destruct (enableDebugSelection dbg).
Qed.

(** *** The loop over the matched rows *)

Lemma run_unionRow (debug : bool)
    (nested : Element → M (gset (option MySolution))) rv row dbg o s :
  run (nested row) dbg = Done o s →
  run (ProblemMatchingLibrary.unionRow debug nested rv row) dbg
  = Done (rowTrace debug (SolutionLibrary.description row) o) (rv ∪ s).
Proof.
  intros Hrow. unfold ProblemMatchingLibrary.unionRow, rowTrace.
  rewrite run_bind.
  destruct debug; simpl; rewrite Hrow; simpl; by rewrite ?app_nil_r.
Qed.

Lemma for_each_unionRow (debug : bool)
    (nested : Element → M (gset (option MySolution))) dbg rows results :
  Forall2 (λ row r, run (nested row) dbg = Done r.1 r.2) rows results →
  ∀ acc,
    run (for_each rows (ProblemMatchingLibrary.unionRow debug nested) acc) dbg
    = Done
        (concat (zip_with
           (λ row r, rowTrace debug (SolutionLibrary.description row) r.1)
           rows results))
        (acc ∪ ⋃ results.*2).
Proof.
  induction 1 as [|row r rows results Hrow _ IH]; intros acc.
  - simpl. by rewrite (right_id_L ∅ (∪)).
  - cbn [for_each]. rewrite (run_bind_Done _ _ _ _ _ (run_unionRow _ _ _ _ _ _ _ Hrow)).
    rewrite IH. simpl. by rewrite (assoc_L (∪)).
Qed.

Lemma nested_results {A} (nested : Element → M A) dbg rows :
  (∀ row, row ∈ rows → ∃ o s, run (nested row) dbg = Done o s) →
  ∃ results : list (list string * A),
    Forall2 (λ row r, run (nested row) dbg = Done r.1 r.2) rows results.
Proof.
  induction rows as [|row rows IH]; intros Hrows.
  - exists []. constructor.
  - destruct (Hrows row) as (o & s & Hrow); [by left|].
    destruct IH as [results Hall]; [intros; apply Hrows; by right|].
    exists ((o, s) :: results). by constructor.
Qed.

Lemma nested_results_elem {A} (nested : Element → M A) dbg rows results r :
  Forall2 (λ row r, run (nested row) dbg = Done r.1 r.2) rows results →
  r ∈ results →
  ∃ row, row ∈ rows ∧ run (nested row) dbg = Done r.1 r.2.
Proof.
  induction 1 as [|row r' rows results Hrow _ IH]; intros Hin.
  - by apply elem_of_nil in Hin.
  - apply elem_of_cons in Hin as [->|Hin].
    + exists row. split; [by left|done].
    + destruct (IH Hin) as (row' & ? & ?). exists row'. split; [by right|done].
Qed.

Lemma nested_results_row {A} (nested : Element → M A) dbg rows results row :
  Forall2 (λ row r, run (nested row) dbg = Done r.1 r.2) rows results →
  row ∈ rows →
  ∃ r, r ∈ results ∧ run (nested row) dbg = Done r.1 r.2.
Proof.
  induction 1 as [|row' r rows results Hrow _ IH]; intros Hin.
  - by apply elem_of_nil in Hin.
  - apply elem_of_cons in Hin as [->|Hin].
    + exists r. split; [by left|done].
    + destruct (IH Hin) as (r' & ? & ?). exists r'. split; [by right|done].
Qed.

Lemma run_findAllSolutions tbl problem hardware searchType dbg :
  run (ProblemMatchingLibrary.findAllSolutions (Some tbl) problem hardware
         searchType) dbg
  = run (for_each (ProblemMatchingLibrary.matchesFor tbl problem searchType)
           (ProblemMatchingLibrary.unionRow (printPropertyEvaluation dbg)
              (λ row, SolutionLibrary.findAllSolutions row problem hardware
                        searchType))
           ∅) dbg.
Proof.
  unfold ProblemMatchingLibrary.findAllSolutions.
  rewrite run_bind. simpl. by destruct (run _ dbg).
Qed.

Lemma run_matchesForGroupedGemm tbl problem0 rest searchType dbg :
  run (ProblemMatchingLibrary.matchesForGroupedGemm tbl (problem0 :: rest)
         searchType) dbg
  = Done [] (ProblemMatchingLibrary.matchesFor tbl problem0 searchType).
Proof.
  unfold ProblemMatchingLibrary.matchesForGroupedGemm,
    ProblemMatchingLibrary.matchesFor.
  by destruct (decide (searchType ≠ DEFAULT)).
Qed.

Lemma run_findAllSolutionsGroupedGemm tbl problem0 rest hardware searchType
    dbg :
  run (ProblemMatchingLibrary.findAllSolutionsGroupedGemm (Some tbl)
         (problem0 :: rest) hardware searchType) dbg
  = run (for_each (ProblemMatchingLibrary.matchesFor tbl problem0 searchType)
           (ProblemMatchingLibrary.unionRow (printPropertyEvaluation dbg)
              (λ row, SolutionLibrary.findAllSolutionsGroupedGemm row
                        (problem0 :: rest) hardware searchType))
           ∅) dbg.
Proof.
  unfold ProblemMatchingLibrary.findAllSolutionsGroupedGemm.
  rewrite run_bind. simpl. rewrite run_matchesForGroupedGemm.
  simpl. by destruct (run _ dbg).
Qed.

Lemma run_findTopSolutionsGroupedGemm tbl problem0 rest hardware k dbg :
  run (ProblemMatchingLibrary.findTopSolutionsGroupedGemm (Some tbl)
         (problem0 :: rest) hardware k) dbg
  = run (Matching.findTopMatch tbl problem0
           (ProblemMatchingLibrary.bestSolutionBatchTransform
              (problem0 :: rest) hardware) k) dbg.
Proof.
  unfold ProblemMatchingLibrary.findTopSolutionsGroupedGemm.
  rewrite run_bind. simpl.
  destruct (run _ dbg); simpl; by rewrite ?app_nil_r.
Qed.



(** *** The diagnostic block of [findTopSolutions] *)

Lemma run_printTopSolutions_resolved (resolved : list MySolution) dbg :
  ∃ out,
    run (ProblemMatchingLibrary.printTopSolutions (Some <$> resolved)) dbg
    = Done out tt.
Proof.
  unfold ProblemMatchingLibrary.printTopSolutions.
  case_bool_decide; [|by eexists].
  assert (∃ out,
    run (for_each (Some <$> resolved)
           (λ (_ : unit) (rv : option MySolution),
              s ← deref rv; cout (pretty (libraryLogicIndex s));; cout ", ")
           tt) dbg = Done out tt) as [out Hloop].
  { apply for_each_total. intros rv [s [-> _]]%list_elem_of_fmap.
    by eexists. }
  erewrite run_bind_Done by reflexivity.
  erewrite run_bind_Done by exact Hloop. by eexists.
Qed.

Lemma findTopSolutions_returns tbl problem hardware k dbg sols :
  returns (run (ProblemMatchingLibrary.findTopSolutions (Some tbl) problem
                  hardware k) dbg) sols →
  returns (run (Matching.findTopMatch tbl problem
                  (ProblemMatchingLibrary.bestSolutionTransform problem
                     hardware) k) dbg) sols.
Proof.
  unfold returns, ProblemMatchingLibrary.findTopSolutions.
  rewrite run_bind. simpl.
  destruct (run (Matching.findTopMatch _ _ _ _) dbg) as [o sols'|]; [|done].
  simpl. destruct (run (when _ _) dbg); simpl; [|done]. by intros [= ->].
Qed.

Lemma findTopSolutions_total tbl problem hardware k dbg out sols :
  run (Matching.findTopMatch tbl problem
         (ProblemMatchingLibrary.bestSolutionTransform problem hardware) k) dbg
  = Done out sols →
  (∃ printed, run (ProblemMatchingLibrary.printTopSolutions sols) dbg
              = Done printed tt) →
  ∃ out',
    run (ProblemMatchingLibrary.findTopSolutions (Some tbl) problem hardware k)
        dbg = Done out' sols.
Proof.
  intros Htop [printed Hprint].
  unfold ProblemMatchingLibrary.findTopSolutions.
  rewrite run_bind. simpl. rewrite Htop. simpl.
  destruct (printLibraryLogicIndex dbg); simpl; [rewrite Hprint|]; by eexists.
Qed.

(** C1: with the debug-selection flag clear, [findBestSolution] is the table's
    [findBestMatch] run with the resolver that asks a row's nested library for
    its best solution (with a null fitness pointer).  The solution that
    [findBestMatch] answers is returned as it is, the null solution of an
    unmatched query included, and the fitness it answers is stored in the
    caller's cell when the pointer is not null.  The call faults only if
    [findBestMatch] does. *)
Theorem findBestSolution_nearest_match tbl problem hardware fitness dbg :
  enableDebugSelection dbg = false →
  let resolver : Matching.Transform Element (option MySolution) :=
    λ library,
      fst <$> SolutionLibrary.findBestSolution library problem hardware None in
  run (ProblemMatchingLibrary.findBestSolution (Some tbl) problem hardware
         fitness) dbg
  = run (matched ← Matching.findBestMatch tbl problem resolver;
         mret (matched.1, (λ _, matched.2) <$> fitness)) dbg
  ∧ (∀ out solution matched,
       run (Matching.findBestMatch tbl problem resolver) dbg
       = Done out (solution, matched) →
       run (ProblemMatchingLibrary.findBestSolution (Some tbl) problem hardware
              fitness) dbg
       = Done out (solution, (λ _, matched) <$> fitness))
  ∧ (run (ProblemMatchingLibrary.findBestSolution (Some tbl) problem hardware
            fitness) dbg = Fault
     ↔ run (Matching.findBestMatch tbl problem resolver) dbg = Fault).
Proof.
  intros Hflag resolver. split; [by apply findBestSolution_nearest|].
  rewrite findBestSolution_nearest by done. rewrite run_bind.
  change (ProblemMatchingLibrary.bestSolutionTransform problem hardware)
    with resolver.
  split.
  - intros out solution matched ->. simpl. by rewrite app_nil_r.
  - by destruct (run (Matching.findBestMatch tbl problem resolver) dbg).
Qed.

(** C3: [findAllSolutions] visits the rows of [matchesInOrder(problem)] (the
    rows in proximity order) in the [DEFAULT] mode and the rows of [GetAll()]
    (all rows, whatever their distance) in any other mode, in the order of
    that sequence: the printed text is the concatenation of the rows' traces
    in that order.  It returns the union of the sets returned by the nested
    [findAllSolutions] calls: a solution is in the result exactly when some
    visited row's nested result contains it, so a row with an empty nested
    result contributes nothing. *)
Theorem findAllSolutions_union tbl problem hardware searchType dbg :
  (∀ row,
     row ∈ ProblemMatchingLibrary.matchesFor tbl problem searchType →
     ∃ o s,
       run (SolutionLibrary.findAllSolutions row problem hardware searchType)
           dbg = Done o s) →
  (ProblemMatchingLibrary.matchesFor tbl problem DEFAULT
     = Matching.matchesInOrder tbl problem
   ∧ (searchType ≠ DEFAULT →
      ProblemMatchingLibrary.matchesFor tbl problem searchType
      = Matching.GetAll tbl))
  ∧ ∃ results,
      Forall2
        (λ row res,
           run (SolutionLibrary.findAllSolutions row problem hardware
                  searchType) dbg = Done res.1 res.2)
        (ProblemMatchingLibrary.matchesFor tbl problem searchType) results
      ∧ run (ProblemMatchingLibrary.findAllSolutions (Some tbl) problem
               hardware searchType) dbg
        = Done
            (concat (zip_with
               (λ row res,
                  rowTrace (printPropertyEvaluation dbg)
                    (SolutionLibrary.description row) res.1)
               (ProblemMatchingLibrary.matchesFor tbl problem searchType)
               results))
            (⋃ results.*2)
      ∧ ∀ x,
          x ∈ ⋃ results.*2 ↔
          ∃ row o s,
            row ∈ ProblemMatchingLibrary.matchesFor tbl problem searchType
            ∧ run (SolutionLibrary.findAllSolutions row problem hardware
                     searchType) dbg = Done o s
            ∧ x ∈ s.
Proof.
  intros Hrows. split.
  - split; [done|]. intros Hmode. unfold ProblemMatchingLibrary.matchesFor.
    by destruct (decide (searchType ≠ DEFAULT)).
  - destruct (nested_results _ dbg _ Hrows) as [results Hall].
    exists results. split; [done|]. split.
    + rewrite run_findAllSolutions, (for_each_unionRow _ _ _ _ _ Hall).
      by rewrite (left_id_L ∅ (∪)).
    + intros x. rewrite elem_of_union_list. split.
      * intros (X & [res [-> Hres]]%list_elem_of_fmap & Hx).
        destruct (nested_results_elem _ _ _ _ _ Hall Hres) as (row & ? & ?).
        exists row, res.1, res.2. eauto.
      * intros (row & o & s & Hrow & Hrun & Hx).
        destruct (nested_results_row _ _ _ _ _ Hall Hrow)
          as (res & Hres & Hrun').
        rewrite Hrun in Hrun'. injection Hrun' as -> ->.
        exists res.2. split; [|done]. by apply list_elem_of_fmap_2.
Qed.

(** C7, as amended: on a table with zero rows, which answers as the
    specification says an empty table does, [findBestSolution] returns the
    null solution.  With the debug-selection flag clear the caller's fitness
    cell, when there is one, receives the sentinel maximum; with the flag set
    the cell is left as it was.  The other queries return nothing as well
    (the grouped ones for a non-empty batch), and none of them faults. *)
Theorem empty_table_no_solution tbl problem problem0 rest hardware fitness
    searchType k index dbg :
  answersAsEmpty tbl dbg None double_max →
  let table : option Table := Some tbl in
  run (ProblemMatchingLibrary.findBestSolution table problem hardware fitness)
      dbg
  = Done [] (None, if enableDebugSelection dbg then fitness
                   else (λ _, double_max) <$> fitness)
  ∧ run (ProblemMatchingLibrary.getSolutionByIndex table problem hardware
           index) dbg = Done [] None
  ∧ run (ProblemMatchingLibrary.findAllSolutions table problem hardware
           searchType) dbg = Done [] ∅
  ∧ run (ProblemMatchingLibrary.findAllSolutionsGroupedGemm table
           (problem0 :: rest) hardware searchType) dbg = Done [] ∅
  ∧ returns (run (ProblemMatchingLibrary.findTopSolutions table problem
                    hardware k) dbg) []
  ∧ run (ProblemMatchingLibrary.findTopSolutionsGroupedGemm table
           (problem0 :: rest) hardware k) dbg = Done [] [].
Proof.
  intros (Hall & Hin & Hbest & Heval & Htop) table. subst table.
  repeat split.
  - destruct (enableDebugSelection dbg) eqn:Hflag.
    + rewrite findBestSolution_evaluation by done.
      by rewrite run_bind, Heval.
    + rewrite findBestSolution_nearest by done.
      by rewrite run_bind, Hbest.
  - unfold ProblemMatchingLibrary.getSolutionByIndex.
    by rewrite run_deref_bind, run_bind, Hbest.
  - rewrite run_findAllSolutions. unfold ProblemMatchingLibrary.matchesFor.
    rewrite Hin, Hall. by case_decide.
  - rewrite run_findAllSolutionsGroupedGemm.
    unfold ProblemMatchingLibrary.matchesFor.
    rewrite Hin, Hall. by case_decide.
  - unfold returns, ProblemMatchingLibrary.findTopSolutions.
    rewrite run_deref_bind, run_bind, Htop. simpl.
    by destruct (printLibraryLogicIndex dbg).
  - by rewrite run_findTopSolutionsGroupedGemm, Htop.
Qed.

(** *** The table of the specification: ranking *)

Section Ranked.
Context {Point : Type}.

Local Abbreviation Row := (MatchingTableSpec.MatchingRow Point Element).
Local Abbreviation SpecTable :=
  (MatchingTableSpec.t MyProblem Hardware Point Element MySolution double).

Implicit Types (st : SpecTable) (d : Row → double) (r : Row).
Implicit Types (ranked : list Row).

(** The order of two rows by their distance. *)
Local Abbreviation closer d := (λ r1 r2 : Row, double_le (d r1) (d r2)).

Lemma insertRanked_perm d r ranked :
  MatchingTableSpec.insertRanked d r ranked ≡ₚ r :: ranked.
Proof.
  induction ranked as [|r' rest IH]; simpl; [done|].
  case_decide; [done|]. rewrite IH. apply Permutation_swap.
Qed.

Lemma rankedRows_perm st problem :
  MatchingTableSpec.rankedRows st problem ≡ₚ MatchingTableSpec.rows st.
Proof.
  unfold MatchingTableSpec.rankedRows.
  induction (MatchingTableSpec.rows st) as [|r rest IH]; simpl; [done|].
  by rewrite insertRanked_perm, IH.
Qed.

Lemma elem_of_rankedRows st problem r :
  r ∈ MatchingTableSpec.rankedRows st problem ↔ r ∈ MatchingTableSpec.rows st.
Proof. by rewrite rankedRows_perm. Qed.

Lemma insertRanked_sorted `{!Total (double_le (double:=double))} d r ranked :
  Sorted (closer d) ranked →
  Sorted (closer d) (MatchingTableSpec.insertRanked d r ranked).
Proof.
  induction ranked as [|r' rest IH]; simpl; intros Hsorted.
  - repeat constructor.
  - case_decide as Hle.
    + constructor; [done|]. by constructor.
    + apply Sorted_inv in Hsorted as [Hrest Hhd].
      constructor; [by apply IH|].
      destruct rest as [|r'' rest']; simpl.
      * constructor. by destruct (total double_le (d r) (d r')).
      * case_decide.
        -- constructor. by destruct (total double_le (d r) (d r')).
        -- constructor. by apply HdRel_inv in Hhd.
Qed.

Lemma rankedRows_sorted `{!Total (double_le (double:=double))} st problem :
  Sorted
    (closer (λ r, MatchingTableSpec.distance st problem
                    (MatchingTableSpec.point r)))
    (MatchingTableSpec.rankedRows st problem).
Proof.
  unfold MatchingTableSpec.rankedRows.
  induction (MatchingTableSpec.rows st) as [|r rest IH]; simpl.
  - constructor.
  - by apply insertRanked_sorted.
Qed.

(** *** The table of the specification: the nearest-match walk *)

Lemma bestWalk_unresolved d
    (resolve : Matching.Transform Element (option MySolution)) ranked dbg :
  (∀ r, r ∈ ranked →
     ∃ o, run (resolve (MatchingTableSpec.nestedLibrary r)) dbg = Done o None) →
  ∃ out,
    run (MatchingTableSpec.bestWalk d resolve ranked) dbg
    = Done out (None, double_max).
Proof.
  induction ranked as [|r rest IH]; intros Hnone; simpl.
  - by exists [].
  - destruct (Hnone r) as [o Hr]; [by left|]. rewrite Hr.
    destruct IH as [out Hrest]; [intros; apply Hnone; by right|].
    rewrite Hrest. by eexists.
Qed.

Lemma run_bestSolutionTransform problem hardware (library : Element) dbg :
  run (ProblemMatchingLibrary.bestSolutionTransform problem hardware library)
      dbg
  = match run (SolutionLibrary.findBestSolution library problem hardware None)
            dbg with
    | Done o r => Done o r.1
    | Fault => Fault
    end.
Proof.
  unfold ProblemMatchingLibrary.bestSolutionTransform. by rewrite run_fmap.
Qed.

Lemma bestWalk_resolved d
    (resolve : Matching.Transform Element (option MySolution)) ranked dbg out s
    f :
  run (MatchingTableSpec.bestWalk d resolve ranked) dbg = Done out (Some s, f) →
  ∃ skipped r rest,
    ranked = skipped ++ r :: rest
    ∧ Forall (λ r', ∃ o,
        run (resolve (MatchingTableSpec.nestedLibrary r')) dbg = Done o None)
        skipped
    ∧ (∃ o, run (resolve (MatchingTableSpec.nestedLibrary r)) dbg
            = Done o (Some s))
    ∧ f = d r.
Proof.
  revert out. induction ranked as [|r rest IH]; intros out; simpl; [done|].
  destruct (run (resolve _) dbg) as [o [s'|]|] eqn:Hr; simpl; [| |done].
  - intros [= _ -> <-]. exists [], r, rest. eauto.
  - destruct (run (MatchingTableSpec.bestWalk _ _ rest) dbg)
      as [o' [s' f']|] eqn:Hrest; [|done].
    intros [= _ -> ->].
    destruct (IH _ eq_refl) as (skipped & r' & rest' & -> & Hskip & Hres & ->).
    exists (r :: skipped), r', rest'. split; [done|].
    split; [constructor; eauto|done].
Qed.

(** On a table of the specification: when every row resolves to nothing,
    [findBestSolution] returns the null solution and the sentinel fitness; and
    a returned solution is the best solution of a row, all rows ranked before
    it resolve to nothing, and the fitness stored is that row's distance. *)
Lemma findBestSolution_on_ranked_rows st problem hardware fitness dbg :
  enableDebugSelection dbg = false →
  ((∀ r, r ∈ MatchingTableSpec.rows st →
      ∃ o cell,
        run (SolutionLibrary.findBestSolution
               (MatchingTableSpec.nestedLibrary r) problem hardware None) dbg
        = Done o (None, cell)) →
   ∃ out,
     run (ProblemMatchingLibrary.findBestSolution
            (Some (MatchingTableSpec.table st)) problem hardware fitness) dbg
     = Done out (None, (λ _, double_max) <$> fitness))
  ∧ (∀ out s cell,
       run (ProblemMatchingLibrary.findBestSolution
              (Some (MatchingTableSpec.table st)) problem hardware fitness) dbg
       = Done out (Some s, cell) →
       ∃ skipped r rest,
         MatchingTableSpec.rankedRows st problem = skipped ++ r :: rest
         ∧ Forall (λ r', ∃ o,
             run (ProblemMatchingLibrary.bestSolutionTransform problem hardware
                    (MatchingTableSpec.nestedLibrary r')) dbg = Done o None)
             skipped
         ∧ (∃ o,
             run (ProblemMatchingLibrary.bestSolutionTransform problem hardware
                    (MatchingTableSpec.nestedLibrary r)) dbg = Done o (Some s))
         ∧ cell = (λ _, MatchingTableSpec.distance st problem
                          (MatchingTableSpec.point r)) <$> fitness).
Proof.
  intros Hflag. split.
  - intros Hnone. rewrite findBestSolution_nearest by done.
    rewrite run_bind. simpl. unfold MatchingTableSpec.findBestMatch.
    edestruct (bestWalk_unresolved
                 (λ r, MatchingTableSpec.distance st problem
                         (MatchingTableSpec.point r))
                 (ProblemMatchingLibrary.bestSolutionTransform problem hardware)
                 (MatchingTableSpec.rankedRows st problem) dbg) as [out Hwalk].
    { intros r Hr. apply elem_of_rankedRows in Hr.
      destruct (Hnone r Hr) as (o & cell & Hrow).
      rewrite run_bestSolutionTransform, Hrow. by exists o. }
    rewrite Hwalk. simpl. eauto.
  - intros out s cell. rewrite findBestSolution_nearest by done.
    rewrite run_bind. simpl. unfold MatchingTableSpec.findBestMatch.
    destruct (run (MatchingTableSpec.bestWalk _ _ _) dbg)
      as [o [s' f]|] eqn:Hwalk; simpl; [|done].
    intros [= _ -> <-].
    destruct (bestWalk_resolved _ _ _ _ _ _ _ Hwalk)
      as (skipped & r & rest & Hranked & Hskip & Hres & ->).
    exists skipped, r, rest. eauto.
Qed.

(** *** The table of the specification: the top-k walk *)

Lemma topWalk_spec
    (resolve : Matching.Transform Element (option MySolution)) k ranked dbg :
  (∀ r, r ∈ ranked →
     run (resolve (MatchingTableSpec.nestedLibrary r)) dbg ≠ Fault) →
  ∀ collected, ∃ out picked,
    run (MatchingTableSpec.topWalk resolve k ranked collected) dbg
    = Done out (collected ++ picked)
    ∧ picked.*1 `sublist_of` ranked
    ∧ Forall (λ rs, ∃ o,
        run (resolve (MatchingTableSpec.nestedLibrary rs.1)) dbg
        = Done o (Some rs.2)) picked
    ∧ (Z.of_nat (length (collected ++ picked))
       ≤ Z.max k (Z.of_nat (length collected)))%Z
    ∧ (NoDup collected.*2 → NoDup (collected ++ picked).*2).
Proof.
  induction ranked as [|r rest IH]; intros Hok collected;
    cbn [MatchingTableSpec.topWalk].
  - exists [], []. rewrite app_nil_r. repeat split; [done|done|lia|done].
  - case_decide as Hfull.
    { exists [], []. rewrite app_nil_r.
      repeat split; [apply sublist_nil_l|done|lia|done]. }
    assert (Hrest : ∀ r', r' ∈ rest →
              run (resolve (MatchingTableSpec.nestedLibrary r')) dbg ≠ Fault)
      by (intros; apply Hok; by right).
    specialize (IH Hrest).
    rewrite run_bind.
    destruct (run (resolve (MatchingTableSpec.nestedLibrary r)) dbg)
      as [o [s|]|] eqn:Hr; [| |exfalso; apply (Hok r); [by left|done]].
    + case_decide as Hdup.
      * destruct (IH collected) as (out & picked & Hrun & Hsub & Hres & Hlen & Hnd).
        exists (o ++ out), picked. rewrite Hrun.
        repeat split; [by apply sublist_cons|done|done|done].
      * destruct (IH (collected ++ [(r, s)]))
          as (out & picked & Hrun & Hsub & Hres & Hlen & Hnd).
        exists (o ++ out), ((r, s) :: picked). rewrite Hrun.
        rewrite <-(assoc_L (++)) in *. simpl in *.
        repeat split.
        -- by apply sublist_skip.
        -- constructor; eauto.
        -- rewrite !length_app in *. simpl in *. lia.
        -- intros Hnodup. apply Hnd. rewrite fmap_app. simpl.
           apply NoDup_app. repeat split; [done| |apply NoDup_singleton].
           intros x Hx. rewrite list_elem_of_singleton. by intros ->.
    + destruct (IH collected) as (out & picked & Hrun & Hsub & Hres & Hlen & Hnd).
      exists (o ++ out), picked. rewrite Hrun.
      repeat split; [by apply sublist_cons|done|done|done].
Qed.

Lemma sublist_StronglySorted {A} (R : relation A) (l1 l2 : list A) :
  l1 `sublist_of` l2 → StronglySorted R l2 → StronglySorted R l1.
Proof.
  induction 1 as [|x l1 l2 Hsub IH|x l1 l2 Hsub IH]; intros Hsorted.
  - constructor.
  - apply StronglySorted_inv in Hsorted as [Hrest Hall].
    constructor; [by apply IH|].
    rewrite Forall_forall in *. intros y Hy. apply Hall.
    by eapply elem_of_sublist.
  - apply StronglySorted_inv in Hsorted as [Hrest _]. by apply IH.
Qed.

Lemma rankedRows_strongly_sorted `{!Total (double_le (double:=double))}
    `{!Transitive (double_le (double:=double))} st problem :
  StronglySorted
    (closer (λ r, MatchingTableSpec.distance st problem
                    (MatchingTableSpec.point r)))
    (MatchingTableSpec.rankedRows st problem).
Proof.
  apply Sorted.Sorted_StronglySorted; [|apply rankedRows_sorted].
  intros r1 r2 r3. apply transitivity.
Qed.

Lemma run_findTopMatch_spec st problem
    (resolve : Matching.Transform Element (option MySolution)) k dbg :
  (∀ r, r ∈ MatchingTableSpec.rows st →
     run (resolve (MatchingTableSpec.nestedLibrary r)) dbg ≠ Fault) →
  ∃ out picked,
    run (MatchingTableSpec.findTopMatch st problem resolve k) dbg
    = Done out (Some <$> picked.*2)
    ∧ picked.*1 `sublist_of` MatchingTableSpec.rankedRows st problem
    ∧ Forall (λ rs, ∃ o,
        run (resolve (MatchingTableSpec.nestedLibrary rs.1)) dbg
        = Done o (Some rs.2)) picked
    ∧ (Z.of_nat (length picked) ≤ Z.max k 0)%Z
    ∧ NoDup picked.*2.
Proof.
  intros Hok. unfold MatchingTableSpec.findTopMatch. rewrite run_bind.
  destruct (topWalk_spec resolve k (MatchingTableSpec.rankedRows st problem)
              dbg) with (collected := @nil (Row * MySolution))
    as (out & picked & Hrun & Hsub & Hres & Hlen & Hnd).
  { intros r Hr. apply Hok. by apply elem_of_rankedRows in Hr. }
  rewrite Hrun. simpl in *. exists (out ++ []), picked.
  repeat split; [done|done|lia|]. apply Hnd. constructor.
Qed.

(** C2: [findTopSolutions] returns what the table's [findTopMatch] returns for
    the resolver that takes a row's single best solution
    ([findBestSolution] of the nested library, not its [findTopSolutions]).
    On a table of the specification whose nested calls return, the call
    returns the solutions picked from a subsequence of the ranked rows: at most
    [k] of them, in ascending order of their rows' distance, each the
    (non-null) best solution of its row, none twice. *)
Theorem findTopSolutions_ranked `{!Total (double_le (double:=double))}
    `{!Transitive (double_le (double:=double))} tbl st problem hardware k dbg :
  (∀ r, r ∈ MatchingTableSpec.rows st →
     run (SolutionLibrary.findBestSolution (MatchingTableSpec.nestedLibrary r)
            problem hardware None) dbg ≠ Fault) →
  (∀ sols,
     returns (run (ProblemMatchingLibrary.findTopSolutions (Some tbl) problem
                     hardware k) dbg) sols →
     returns (run (Matching.findTopMatch tbl problem
                     (λ library,
                        fst <$> SolutionLibrary.findBestSolution library
                                  problem hardware None) k) dbg) sols)
  ∧ ∃ out picked,
      run (ProblemMatchingLibrary.findTopSolutions
             (Some (MatchingTableSpec.table st)) problem hardware k) dbg
      = Done out (Some <$> picked.*2)
      ∧ (Z.of_nat (length picked) ≤ Z.max k 0)%Z
      ∧ picked.*1 `sublist_of` MatchingTableSpec.rankedRows st problem
      ∧ StronglySorted
          (closer (λ r, MatchingTableSpec.distance st problem
                          (MatchingTableSpec.point r)))
          picked.*1
      ∧ Forall (λ rs, ∃ o cell,
          run (SolutionLibrary.findBestSolution
                 (MatchingTableSpec.nestedLibrary rs.1) problem hardware None)
              dbg = Done o (Some rs.2, cell)) picked
      ∧ NoDup picked.*2.
Proof.
  intros Hok. split; [apply findTopSolutions_returns|].
  destruct (run_findTopMatch_spec st problem
              (ProblemMatchingLibrary.bestSolutionTransform problem hardware)
              k dbg) as (out & picked & Hrun & Hsub & Hres & Hlen & Hnd).
  { intros r Hr. rewrite run_bestSolutionTransform.
    specialize (Hok r Hr). by destruct (run _ dbg). }
  destruct (findTopSolutions_total (MatchingTableSpec.table st) problem
              hardware k dbg out (Some <$> picked.*2) Hrun) as [out' Hcall].
  { apply run_printTopSolutions_resolved. }
  exists out', picked. repeat split; [done|done|done| |  |done].
  - eapply sublist_StronglySorted; [done|].
    apply rankedRows_strongly_sorted.
  - eapply Forall_impl; [done|]. intros [r s] [o Hr]. cbn [fst snd] in *.
    rewrite run_bestSolutionTransform in Hr.
    destruct (run (SolutionLibrary.findBestSolution _ _ _ _) dbg)
      as [o' [s' cell]|]; [|done].
    injection Hr as -> ->. eauto.
Qed.

(** On a table of the specification [matchesInOrder] hands out the rows
    ranked by ascending distance, a rearrangement of all rows, and [GetAll]
    the rows as inserted. *)
Lemma matchesInOrder_ranked `{!Total (double_le (double:=double))} st problem :
  Matching.matchesInOrder (MatchingTableSpec.table st) problem
    = MatchingTableSpec.nestedLibrary
        <$> MatchingTableSpec.rankedRows st problem
  ∧ Sorted
      (closer (λ r, MatchingTableSpec.distance st problem
                      (MatchingTableSpec.point r)))
      (MatchingTableSpec.rankedRows st problem)
  ∧ MatchingTableSpec.rankedRows st problem ≡ₚ MatchingTableSpec.rows st
  ∧ Matching.GetAll (MatchingTableSpec.table st)
    = MatchingTableSpec.nestedLibrary <$> MatchingTableSpec.rows st.
Proof.
  split; [done|]. split; [apply rankedRows_sorted|].
  split; [apply rankedRows_perm|done].
Qed.

(** *** The table of the specification without rows *)

Lemma rankedRows_empty st problem :
  MatchingTableSpec.rows st = [] → MatchingTableSpec.rankedRows st problem = [].
Proof. unfold MatchingTableSpec.rankedRows. by intros ->. Qed.

Lemma spec_table_answersAsEmpty st dbg :
  MatchingTableSpec.rows st = [] →
  answersAsEmpty (MatchingTableSpec.table st) dbg None double_max.
Proof.
  intros Hrows. repeat split; simpl.
  - unfold MatchingTableSpec.allRows. by rewrite Hrows.
  - intros object. by rewrite rankedRows_empty.
  - intros object transform. unfold MatchingTableSpec.findBestMatch.
    by rewrite rankedRows_empty.
  - intros object hardware transform.
    unfold MatchingTableSpec.findBestEvaluationSolution.
    by rewrite rankedRows_empty.
  - intros object transform k. unfold MatchingTableSpec.findTopMatch.
    by rewrite rankedRows_empty.
Qed.
End Ranked.
End Properties.

(** ** The theorems at the samples *)

(** C1 at a table whose two rows resolve to nothing. *)
Lemma findBestSolution_nearest_match_witness :
  enableDebugSelection Sample.quiet = false
  ∧ run (ProblemMatchingLibrary.findBestSolution
           (Sample.libraryOver Sample.unresolvedRows) 0 tt (Some 0%Z))
        Sample.quiet
    = Done [] (None, Some double_max).
Proof.
  split; [reflexivity|].
  destruct (findBestSolution_nearest_match
              (MatchingTableSpec.table Sample.unresolvedRows) 0 tt (Some 0%Z)
              Sample.quiet eq_refl) as (_ & Hanswer & _).
  apply Hanswer. vm_compute. reflexivity.
Defined.

(** C2 at the table of five rows, two of which do not resolve. *)
Lemma findTopSolutions_ranked_witness :
  (∀ r, r ∈ MatchingTableSpec.rows Sample.fiveRows →
     run (SolutionLibrary.findBestSolution (MatchingTableSpec.nestedLibrary r)
            0 tt None) Sample.quiet ≠ Fault)
  ∧ ∃ out (picked : list (Sample.Row * nat)),
      run (ProblemMatchingLibrary.findTopSolutions
             (Sample.libraryOver Sample.fiveRows) 0 tt 3) Sample.quiet
      = Done out (Some <$> picked.*2)
      ∧ (Z.of_nat (length picked) ≤ 3)%Z
      ∧ NoDup picked.*2.
Proof.
  assert (Hok : ∀ r, r ∈ MatchingTableSpec.rows Sample.fiveRows →
     run (SolutionLibrary.findBestSolution (MatchingTableSpec.nestedLibrary r)
            0 tt None) Sample.quiet ≠ Fault).
  { apply (proj1 (Forall_forall _ _)). repeat constructor; discriminate. }
  split; [exact Hok|].
  destruct (findTopSolutions_ranked
              (Scalar0 := Sample.Z_scalar) (Total0 := (_ : Total Z.le))
              (Transitive0 := (_ : Transitive Z.le))
              (MatchingTableSpec.table Sample.fiveRows) Sample.fiveRows
              0 tt 3%Z Sample.quiet Hok)
    as (_ & out & picked & Hrun & Hlen & _ & _ & _ & Hnodup).
  exists out, picked. split; [exact Hrun|]. split; [exact Hlen|exact Hnodup].
Defined.

(** C3 at a table of two rows, one with an empty nested result. *)
Lemma findAllSolutions_union_witness :
  (∀ row,
     row ∈ ProblemMatchingLibrary.matchesFor
             (MatchingTableSpec.table Sample.twoRowsNearestEmpty) 0 DEFAULT →
     ∃ o s,
       run (SolutionLibrary.findAllSolutions row 0 tt DEFAULT) Sample.verbose
       = Done o s)
  ∧ ∃ out result,
      run (ProblemMatchingLibrary.findAllSolutions
             (Sample.libraryOver Sample.twoRowsNearestEmpty) 0 tt DEFAULT)
          Sample.verbose
      = Done out result
      ∧ ∀ x, x ∈ result →
          ∃ row o s,
            row ∈ ProblemMatchingLibrary.matchesFor
                    (MatchingTableSpec.table Sample.twoRowsNearestEmpty) 0
                    DEFAULT
            ∧ run (SolutionLibrary.findAllSolutions row 0 tt DEFAULT)
                  Sample.verbose = Done o s
            ∧ x ∈ s.
Proof.
  assert (Hrows : ∀ row,
     row ∈ ProblemMatchingLibrary.matchesFor
             (MatchingTableSpec.table Sample.twoRowsNearestEmpty) 0 DEFAULT →
     ∃ o s,
       run (SolutionLibrary.findAllSolutions row 0 tt DEFAULT) Sample.verbose
       = Done o s).
  { change (∀ row, row ∈ [Sample.leaf None; Sample.leaf (Some 50)] →
       ∃ o s,
         run (SolutionLibrary.findAllSolutions row 0 tt DEFAULT) Sample.verbose
         = Done o s).
    apply (proj1 (Forall_forall _ _)). repeat constructor; by eexists _, _. }
  split; [exact Hrows|].
  destruct (findAllSolutions_union
              (MatchingTableSpec.table Sample.twoRowsNearestEmpty)
              0 tt DEFAULT Sample.verbose Hrows)
    as (_ & results & _ & Hrun & Hmem).
  eexists _, _. split; [exact Hrun|]. intros x Hx. by apply Hmem.
Defined.


(** C5 at the table of two rows. *)
Lemma findBestSolution_debug_selection_witness :
  enableDebugSelection Sample.debugSelection = true
  ∧ run (ProblemMatchingLibrary.findBestSolution
           (Sample.libraryOver Sample.twoRows) 0 tt (Some 0%Z))
        Sample.debugSelection
    = run (evaluationSolution ←
             Matching.findBestEvaluationSolution
               (MatchingTableSpec.table Sample.twoRows) 0 tt
               (ProblemMatchingLibrary.bestSolutionTransform 0 tt);
           mret (evaluationSolution, Some 0%Z)) Sample.debugSelection.
Proof.
  split; [reflexivity|].
  apply (findBestSolution_debug_selection
           (MatchingTableSpec.table Sample.twoRows) 0 tt (Some 0%Z)
           Sample.debugSelection eq_refl).
Defined.

(** C7, as amended, at the table without rows. *)
Lemma empty_table_no_solution_witness :
  answersAsEmpty (MatchingTableSpec.table Sample.emptyTable) Sample.quiet None
    double_max
  ∧ run (ProblemMatchingLibrary.findBestSolution
           (Sample.libraryOver Sample.emptyTable) 0 tt (Some 0%Z)) Sample.quiet
    = Done [] (None, Some double_max).
Proof.
  assert (Hempty :
    answersAsEmpty (MatchingTableSpec.table Sample.emptyTable) Sample.quiet
      None double_max)
    by (repeat split; reflexivity).
  split; [exact Hempty|].
  apply (empty_table_no_solution (MatchingTableSpec.table Sample.emptyTable)
           0 0 [] tt (Some 0%Z) DEFAULT 3%Z 0%Z Sample.quiet Hempty).
Defined.


(** ** Counterexamples to the claims as first stated *)

(** C7 as stated fails: with the debug-selection flag set, [findBestSolution]
    on the table without rows leaves the caller's fitness cell at its old
    value, which is not the sentinel maximum. *)
Lemma empty_table_debug_fitness_counterexample :
  run (ProblemMatchingLibrary.findBestSolution
         (Sample.libraryOver Sample.emptyTable) 0 tt (Some 0%Z))
      Sample.debugSelection
  = Done [] (None, Some 0%Z)
  ∧ Some 0%Z ≠ Some (double_max (double:=Z)).
Proof. split; [vm_compute; reflexivity|]. vm_compute. discriminate. Qed.


(** * Further properties of the library *)

Lemma value_bind {A B} (c : M A) (k : A → M B) dbg :
  value (run (c ≫= k) dbg)
  = value (run c dbg) ≫= λ a, value (run (k a) dbg).
Proof.
  rewrite run_bind. destruct (run c dbg) as [o a|]; simpl; [|done].
  by destruct (run (k a) dbg).
Qed.

Section MoreProperties.
Context {MyProblem Hardware MySolution double : Type}.
Context `{Countable MySolution} `{!SolutionLike MySolution} `{!Scalar double}.

Local Abbreviation Element :=
  (SolutionLibrary.t MyProblem Hardware MySolution double).
Local Abbreviation Table :=
  (Matching.MatchingTable MyProblem Hardware Element (option MySolution) double).

Implicit Types (table : option Table) (tbl : Table) (dbg : Debug).
Implicit Types (problem : MyProblem) (problems : list MyProblem).
Implicit Types (hardware : Hardware) (fitness : option double).
Implicit Types (searchType : SolutionLibrarySearchType) (k index : Z).
Implicit Types (nested : Element → M (gset (option MySolution))).
Implicit Types (rows : list Element) (acc : gset (option MySolution)).

(** ** The loop over the matched rows, by value *)

Lemma value_unionRow (debug : bool) nested acc row dbg :
  value (run (ProblemMatchingLibrary.unionRow debug nested acc row) dbg)
  = (λ s, acc ∪ s) <$> value (run (nested row) dbg).
Proof.
  destruct (run (nested row) dbg) as [o s|] eqn:Hrow.
  - by rewrite (run_unionRow _ _ _ _ _ _ _ Hrow).
  - unfold ProblemMatchingLibrary.unionRow. rewrite run_bind.
    destruct debug; simpl; by rewrite Hrow.
Qed.

Lemma run_unionRow_fault (debug : bool) nested acc row dbg :
  run (nested row) dbg = Fault →
  run (ProblemMatchingLibrary.unionRow debug nested acc row) dbg = Fault.
Proof.
  intros Hrow.
  pose proof (value_unionRow debug nested acc row dbg) as Hvalue.
  rewrite Hrow in Hvalue.
  by destruct (run (ProblemMatchingLibrary.unionRow debug nested acc row) dbg).
Qed.

Lemma value_for_each_cons (debug : bool) nested row rows acc dbg :
  value (run (for_each (row :: rows)
                (ProblemMatchingLibrary.unionRow debug nested) acc) dbg)
  = value (run (nested row) dbg) ≫= λ s,
      value (run (for_each rows
                    (ProblemMatchingLibrary.unionRow debug nested) (acc ∪ s))
                 dbg).
Proof.
  cbn [for_each]. rewrite value_bind, value_unionRow.
  by destruct (value (run (nested row) dbg)).
Qed.

Lemma for_each_unionRow_fault (debug : bool) nested rows dbg :
  (∃ row, row ∈ rows ∧ run (nested row) dbg = Fault) →
  ∀ acc,
    run (for_each rows (ProblemMatchingLibrary.unionRow debug nested) acc) dbg
    = Fault.
Proof.
  intros Hfault acc.
  assert (value (run (for_each rows
                        (ProblemMatchingLibrary.unionRow debug nested) acc)
                     dbg) = None) as Hnone;
    [|by destruct (run _ dbg)].
  revert acc. induction rows as [|row rows IH]; intros acc.
  - destruct Hfault as (row & Hin & _). by apply elem_of_nil in Hin.
  - rewrite value_for_each_cons.
    destruct (run (nested row) dbg) as [o s|] eqn:Hrow; simpl; [|done].
    apply IH. destruct Hfault as (row' & Hin & Hrow').
    apply elem_of_cons in Hin as [->|Hin]; [congruence|eauto].
Qed.

Lemma for_each_unionRow_perm (debug : bool) nested rows rows' dbg :
  rows ≡ₚ rows' →
  ∀ acc,
    value (run (for_each rows
                  (ProblemMatchingLibrary.unionRow debug nested) acc) dbg)
    = value (run (for_each rows'
                    (ProblemMatchingLibrary.unionRow debug nested) acc) dbg).
Proof.
  induction 1 as [|row rows rows' _ IH|row1 row2 rows|rows1 rows2 rows3 _ IH1 _ IH2];
    intros acc.
  - done.
  - rewrite !value_for_each_cons.
    destruct (value (run (nested row) dbg)); simpl; [apply IH|done].
  - rewrite !value_for_each_cons.
    destruct (value (run (nested row2) dbg)) as [s2|] eqn:H2,
             (value (run (nested row1) dbg)) as [s1|] eqn:H1;
      cbn [mbind option_bind];
      rewrite ?value_for_each_cons, ?H1, ?H2; cbn [mbind option_bind];
      [|done..].
    by rewrite <-!(assoc_L (∪)), (comm_L (∪) s2 s1).
  - by rewrite IH1, IH2.
Qed.

Lemma for_each_unionRow_flags (debug debug' : bool) nested nested' rows dbg
    dbg' :
  (∀ row, row ∈ rows →
     value (run (nested row) dbg) = value (run (nested' row) dbg')) →
  ∀ acc,
    value (run (for_each rows
                  (ProblemMatchingLibrary.unionRow debug nested) acc) dbg)
    = value (run (for_each rows
                    (ProblemMatchingLibrary.unionRow debug' nested') acc)
                 dbg').
Proof.
  induction rows as [|row rows IH]; intros Hsame acc; [done|].
  rewrite !value_for_each_cons, (Hsame row) by left.
  destruct (value (run (nested' row) dbg')); simpl; [|done].
  apply IH. intros; apply Hsame; by right.
Qed.

Lemma for_each_unionRow_ext (debug : bool) nested nested' rows dbg :
  (∀ row, row ∈ rows → run (nested row) dbg = run (nested' row) dbg) →
  ∀ acc,
    run (for_each rows (ProblemMatchingLibrary.unionRow debug nested) acc) dbg
    = run (for_each rows (ProblemMatchingLibrary.unionRow debug nested') acc)
        dbg.
Proof.
  induction rows as [|row rows IH]; intros Hsame acc; [done|].
  cbn [for_each]. rewrite !run_bind.
  assert (run (ProblemMatchingLibrary.unionRow debug nested acc row) dbg
          = run (ProblemMatchingLibrary.unionRow debug nested' acc row) dbg)
    as ->.
  { destruct (run (nested' row) dbg) as [o s|] eqn:Hrow'.
    - rewrite (run_unionRow _ nested' _ _ _ _ _ Hrow').
      apply run_unionRow. by rewrite (Hsame row) by left.
    - rewrite !run_unionRow_fault; [done..|]. by rewrite (Hsame row) by left. }
  destruct (run (ProblemMatchingLibrary.unionRow debug nested' acc row) dbg)
    as [o acc'|]; [|done].
  by rewrite IH by (intros; apply Hsame; by right).
Qed.

Lemma findAllSolutions_members tbl problem hardware searchType dbg :
  (∀ row,
     row ∈ ProblemMatchingLibrary.matchesFor tbl problem searchType →
     run (SolutionLibrary.findAllSolutions row problem hardware searchType) dbg
     ≠ Fault) →
  ∃ out result,
    run (ProblemMatchingLibrary.findAllSolutions (Some tbl) problem hardware
           searchType) dbg = Done out result
    ∧ ∀ x,
        x ∈ result ↔
        ∃ row o s,
          row ∈ ProblemMatchingLibrary.matchesFor tbl problem searchType
          ∧ run (SolutionLibrary.findAllSolutions row problem hardware
                   searchType) dbg = Done o s
          ∧ x ∈ s.
Proof.
  intros Hrows.
  destruct (nested_results
              (λ row, SolutionLibrary.findAllSolutions row problem hardware
                        searchType)
              dbg (ProblemMatchingLibrary.matchesFor tbl problem searchType))
    as [results Hall].
  { intros row Hrow. specialize (Hrows row Hrow).
    destruct (run _ dbg) as [o s|]; [eauto|done]. }
  eexists _, _. split.
  { rewrite run_findAllSolutions. apply (for_each_unionRow _ _ _ _ _ Hall). }
  intros x. rewrite (left_id_L ∅ (∪)), elem_of_union_list. split.
  - intros (X & [res [-> Hres]]%list_elem_of_fmap & Hx).
    destruct (nested_results_elem _ _ _ _ _ Hall Hres) as (row & ? & ?).
    exists row, res.1, res.2. eauto.
  - intros (row & o & s & Hrow & Hrun & Hx).
    destruct (nested_results_row _ _ _ _ _ Hall Hrow) as (res & Hres & Hrun').
    rewrite Hrun in Hrun'. injection Hrun' as -> ->.
    exists res.2. split; [|done]. by apply list_elem_of_fmap_2.
Qed.
Lemma for_each_unionRow_returns_iff (debug : bool) nested rows acc dbg :
  run (for_each rows (ProblemMatchingLibrary.unionRow debug nested) acc) dbg
  ≠ Fault
  ↔ ∀ row, row ∈ rows → run (nested row) dbg ≠ Fault.
Proof.
  split.
  - intros Hreturns row Hin Hfault. apply Hreturns.
    apply for_each_unionRow_fault. eauto.
  - intros Hrows.
    destruct (nested_results nested dbg rows) as [results Hall].
    { intros row Hrow. specialize (Hrows row Hrow).
      destruct (run (nested row) dbg) as [o s|]; [eauto|done]. }
    by rewrite (for_each_unionRow _ _ _ _ _ Hall).
Qed.

(** ** [findAllSolutions] and [findAllSolutionsGroupedGemm] *)

(** X1: [findAllSolutions] returns exactly when the nested call of every
    visited row returns: a fault in one row makes the whole query fault, and
    the sets of the other rows are lost.  The same holds for
    [findAllSolutionsGroupedGemm] on a non-empty batch. *)
Theorem findAllSolutions_returns_iff tbl problem rest hardware searchType dbg :
  (run (ProblemMatchingLibrary.findAllSolutions (Some tbl) problem hardware
          searchType) dbg ≠ Fault
   ↔ ∀ row,
       row ∈ ProblemMatchingLibrary.matchesFor tbl problem searchType →
       run (SolutionLibrary.findAllSolutions row problem hardware searchType)
           dbg ≠ Fault)
  ∧ (run (ProblemMatchingLibrary.findAllSolutionsGroupedGemm (Some tbl)
            (problem :: rest) hardware searchType) dbg ≠ Fault
     ↔ ∀ row,
         row ∈ ProblemMatchingLibrary.matchesFor tbl problem searchType →
         run (SolutionLibrary.findAllSolutionsGroupedGemm row
                (problem :: rest) hardware searchType) dbg ≠ Fault).
Proof.
  split.
  - rewrite run_findAllSolutions. apply for_each_unionRow_returns_iff.
  - rewrite run_findAllSolutionsGroupedGemm.
    apply for_each_unionRow_returns_iff.
Qed.

(** X2: the set returned by [findAllSolutions] does not depend on the order in
    which the table hands out the rows: two tables whose row sequences for the
    query are rearrangements of each other give the same set, or both fault.
    The same holds for [findAllSolutionsGroupedGemm] on a non-empty batch. *)
Theorem findAllSolutions_order_irrelevant tbl tbl' problem rest hardware
    searchType dbg :
  ProblemMatchingLibrary.matchesFor tbl problem searchType
    ≡ₚ ProblemMatchingLibrary.matchesFor tbl' problem searchType →
  value (run (ProblemMatchingLibrary.findAllSolutions (Some tbl) problem
                hardware searchType) dbg)
  = value (run (ProblemMatchingLibrary.findAllSolutions (Some tbl') problem
                  hardware searchType) dbg)
  ∧ value (run (ProblemMatchingLibrary.findAllSolutionsGroupedGemm (Some tbl)
                  (problem :: rest) hardware searchType) dbg)
    = value (run (ProblemMatchingLibrary.findAllSolutionsGroupedGemm
                    (Some tbl') (problem :: rest) hardware searchType) dbg).
Proof.
  intros Hperm. split.
  - rewrite !run_findAllSolutions. by apply for_each_unionRow_perm.
  - rewrite !run_findAllSolutionsGroupedGemm. by apply for_each_unionRow_perm.
Qed.

(** X3: the diagnostic flags take no part in the set that [findAllSolutions]
    returns, except through the nested libraries: under two states of the
    flags for which every visited row's nested call has the same value, the
    query has the same value. *)
Theorem findAllSolutions_flags_irrelevant tbl problem hardware searchType dbg
    dbg' :
  (∀ row,
     row ∈ ProblemMatchingLibrary.matchesFor tbl problem searchType →
     value (run (SolutionLibrary.findAllSolutions row problem hardware
                   searchType) dbg)
     = value (run (SolutionLibrary.findAllSolutions row problem hardware
                     searchType) dbg')) →
  value (run (ProblemMatchingLibrary.findAllSolutions (Some tbl) problem
                hardware searchType) dbg)
  = value (run (ProblemMatchingLibrary.findAllSolutions (Some tbl) problem
                  hardware searchType) dbg').
Proof.
  intros Hsame. rewrite !run_findAllSolutions.
  by apply for_each_unionRow_flags.
Qed.

(** X4: on a batch of one problem [findAllSolutionsGroupedGemm] has the
    outcome of [findAllSolutions] on that problem, provided each visited row's
    nested library agrees likewise. *)
Theorem findAllSolutionsGroupedGemm_singleton tbl problem hardware searchType
    dbg :
  (∀ row,
     row ∈ ProblemMatchingLibrary.matchesFor tbl problem searchType →
     run (SolutionLibrary.findAllSolutionsGroupedGemm row [problem] hardware
            searchType) dbg
     = run (SolutionLibrary.findAllSolutions row problem hardware searchType)
         dbg) →
  run (ProblemMatchingLibrary.findAllSolutionsGroupedGemm (Some tbl) [problem]
         hardware searchType) dbg
  = run (ProblemMatchingLibrary.findAllSolutions (Some tbl) problem hardware
           searchType) dbg.
Proof.
  intros Hsame.
  rewrite run_findAllSolutionsGroupedGemm, run_findAllSolutions.
  by apply for_each_unionRow_ext.
Qed.

(** X5: a hierarchy of two levels.  When the rows visited by the outer library
    are matching libraries over the tables [inner], and every leaf they visit
    returns, [findAllSolutions] returns the union over all leaves reached: a
    solution is in the result exactly when the nested result of some row of
    some inner table contains it. *)
Theorem findAllSolutions_two_levels tbl (inner : list Table) inherited problem
    hardware searchType dbg :
  ProblemMatchingLibrary.matchesFor tbl problem searchType
    = (λ t, ProblemMatchingLibrary.library (Some t) inherited) <$> inner →
  (∀ t leaf,
     t ∈ inner →
     leaf ∈ ProblemMatchingLibrary.matchesFor t problem searchType →
     run (SolutionLibrary.findAllSolutions leaf problem hardware searchType)
         dbg ≠ Fault) →
  ∃ out result,
    run (ProblemMatchingLibrary.findAllSolutions (Some tbl) problem hardware
           searchType) dbg = Done out result
    ∧ ∀ x,
        x ∈ result ↔
        ∃ t leaf o s,
          t ∈ inner
          ∧ leaf ∈ ProblemMatchingLibrary.matchesFor t problem searchType
          ∧ run (SolutionLibrary.findAllSolutions leaf problem hardware
                   searchType) dbg = Done o s
          ∧ x ∈ s.
Proof.
  intros Hrows Hleaves.
  destruct (findAllSolutions_members tbl problem hardware searchType dbg)
    as (out & result & Hrun & Hmem).
  { rewrite Hrows. intros row [t [-> Ht]]%list_elem_of_fmap.
    cbn [ProblemMatchingLibrary.library SolutionLibrary.findAllSolutions].
    destruct (findAllSolutions_members t problem hardware searchType dbg
                (λ leaf, Hleaves t leaf Ht)) as (o & s & -> & _). done. }
  exists out, result. split; [done|]. intros x. rewrite Hmem. split.
  - intros (row & o & s & Hrow & Hnested & Hx).
    rewrite Hrows in Hrow. apply list_elem_of_fmap in Hrow as [t [-> Ht]].
    cbn [ProblemMatchingLibrary.library SolutionLibrary.findAllSolutions]
      in Hnested.
    destruct (findAllSolutions_members t problem hardware searchType dbg
                (λ leaf, Hleaves t leaf Ht)) as (o' & s' & Hinner & Hmem').
    rewrite Hinner in Hnested. injection Hnested as -> ->.
    apply Hmem' in Hx as (leaf & ol & sl & ? & ? & ?).
    exists t, leaf, ol, sl. eauto.
  - intros (t & leaf & ol & sl & Ht & Hleaf & Hnested & Hx).
    destruct (findAllSolutions_members t problem hardware searchType dbg
                (λ leaf, Hleaves t leaf Ht)) as (o' & s' & Hinner & Hmem').
    exists (ProblemMatchingLibrary.library (Some t) inherited), o', s'.
    split; [rewrite Hrows; apply list_elem_of_fmap; by exists t|].
    split; [done|]. apply Hmem'. by exists leaf, ol, sl.
Qed.
(** ** [findTopSolutions] and its diagnostic block *)

Lemma for_each_null {A} (body : unit → option A → M unit) sols dbg :
  run (body tt None) dbg = Fault →
  (∀ a, ∃ o, run (body tt (Some a)) dbg = Done o tt) →
  None ∈ sols →
  run (for_each sols body tt) dbg = Fault.
Proof.
  intros Hnull Hsome. induction sols as [|rv sols IH]; intros Hin.
  - by apply elem_of_nil in Hin.
  - cbn [for_each]. destruct rv as [a|].
    + destruct (Hsome a) as [o Ha]. rewrite (run_bind_Done _ _ _ _ _ Ha).
      apply elem_of_cons in Hin as [?|Hin]; [done|]. by rewrite IH.
    + by rewrite run_bind, Hnull.
Qed.

Lemma for_each_resolved {A} (body : unit → option A → M unit)
    (trace : A → list string) (resolved : list A) dbg :
  (∀ a, run (body tt (Some a)) dbg = Done (trace a) tt) →
  run (for_each (Some <$> resolved) body tt) dbg
  = Done (concat (trace <$> resolved)) tt.
Proof.
  intros Hbody. induction resolved as [|a resolved IH]; [done|].
  cbn [fmap list_fmap for_each].
  rewrite (run_bind_Done _ _ _ _ _ (Hbody a)).
  change (list_fmap A (option A) Some resolved) with (Some <$> resolved).
  by rewrite IH.
Qed.

Lemma run_printTopSolutions_null (sols : list (option MySolution)) dbg :
  None ∈ sols →
  run (ProblemMatchingLibrary.printTopSolutions sols) dbg = Fault.
Proof.
  intros Hin. unfold ProblemMatchingLibrary.printTopSolutions.
  case_bool_decide as Hempty; [|by destruct sols; [apply elem_of_nil in Hin|]].
  erewrite run_bind_Done by reflexivity.
  rewrite run_bind, for_each_null; [done|done| |done].
  intros s. by eexists.
Qed.

Lemma run_printTopSolutions_trace (resolved : list MySolution) dbg :
  run (ProblemMatchingLibrary.printTopSolutions (Some <$> resolved)) dbg
  = Done (topSolutionsTrace resolved) tt.
Proof.
  unfold ProblemMatchingLibrary.printTopSolutions, topSolutionsTrace.
  case_bool_decide as Hempty.
  - destruct resolved as [|s resolved]; [done|].
    erewrite run_bind_Done by reflexivity.
    erewrite run_bind_Done
      by (apply (for_each_resolved _
                   (λ s, [pretty (libraryLogicIndex s); ", "])); done).
    done.
  - by destruct resolved.
Qed.

(** X6: [findTopSolutions] hands back the sequence that the table's
    [findTopMatch] answers.  With the [printLibraryLogicIndex] flag clear it
    adds nothing.  With the flag set it reads [libraryLogicIndex] through
    every returned pointer without a null check: if the answered sequence
    holds a null pointer, the call faults instead of returning it. *)
Theorem findTopSolutions_null_pointer tbl problem hardware k dbg out sols :
  run (Matching.findTopMatch tbl problem
         (ProblemMatchingLibrary.bestSolutionTransform problem hardware) k) dbg
  = Done out sols →
  (printLibraryLogicIndex dbg = false →
   run (ProblemMatchingLibrary.findTopSolutions (Some tbl) problem hardware k)
       dbg = Done out sols)
  ∧ (printLibraryLogicIndex dbg = true →
     None ∈ sols →
     run (ProblemMatchingLibrary.findTopSolutions (Some tbl) problem hardware
            k) dbg = Fault).
Proof.
  intros Htop. unfold ProblemMatchingLibrary.findTopSolutions.
  rewrite run_deref_bind, (run_bind_Done _ _ _ _ _ Htop).
  split.
  - intros Hflag. rewrite run_bind. simpl. rewrite Hflag. simpl.
    by rewrite app_nil_r.
  - intros Hflag Hnull. rewrite run_bind. simpl. rewrite Hflag.
    cbn [when]. by rewrite run_printTopSolutions_null.
Qed.

(** X7: with the [printLibraryLogicIndex] flag set and a sequence without null
    pointers, [findTopSolutions] returns that sequence and prints, after what
    the table printed, the logic index of each returned solution in rank
    order between the heading and a newline; for an empty sequence it prints
    that no solution was found. *)
Theorem findTopSolutions_trace tbl problem hardware k dbg out
    (resolved : list MySolution) :
  run (Matching.findTopMatch tbl problem
         (ProblemMatchingLibrary.bestSolutionTransform problem hardware) k) dbg
  = Done out (Some <$> resolved) →
  printLibraryLogicIndex dbg = true →
  run (ProblemMatchingLibrary.findTopSolutions (Some tbl) problem hardware k)
      dbg
  = Done (out ++ topSolutionsTrace resolved) (Some <$> resolved).
Proof.
  intros Htop Hflag. unfold ProblemMatchingLibrary.findTopSolutions.
  rewrite run_deref_bind, (run_bind_Done _ _ _ _ _ Htop).
  rewrite run_bind. simpl. rewrite Hflag.
  cbn [when]. rewrite run_printTopSolutions_trace.
  simpl. by rewrite app_nil_r.
Qed.

(** ** [findBestSolution] and [getSolutionByIndex] *)

(** X8: the fitness pointer takes no part in the selection.  Whether the
    pointer is null or not, [findBestSolution] returns the same solution,
    prints the same text and faults alike; a null pointer is never written
    through; and with the debug-selection flag set the caller's cell is
    handed back as it was. *)
Theorem findBestSolution_fitness_pointer table problem hardware fitness dbg :
  run (fst <$> ProblemMatchingLibrary.findBestSolution table problem hardware
                 fitness) dbg
  = run (fst <$> ProblemMatchingLibrary.findBestSolution table problem
                   hardware None) dbg
  ∧ (∀ out solution cell,
       run (ProblemMatchingLibrary.findBestSolution table problem hardware
              None) dbg = Done out (solution, cell) →
       cell = None)
  ∧ (enableDebugSelection dbg = true →
     ∀ out solution cell,
       run (ProblemMatchingLibrary.findBestSolution table problem hardware
              fitness) dbg = Done out (solution, cell) →
       cell = fitness).
Proof.
  destruct table as [tbl|].
  2: { assert (Hnull : ∀ cell,
         run (ProblemMatchingLibrary.findBestSolution (None : option Table)
                problem hardware cell) dbg = Fault).
       { intros cell. unfold ProblemMatchingLibrary.findBestSolution. simpl.
         by destruct (enableDebugSelection dbg). }
       rewrite !run_fmap, !Hnull. repeat split; intros; congruence. }
  destruct (enableDebugSelection dbg) eqn:Hflag.
  - rewrite !run_fmap, !findBestSolution_evaluation by done.
    rewrite !run_bind.
    destruct (run (Matching.findBestEvaluationSolution _ _ _ _) dbg)
      as [o s|]; simpl; [|by repeat split].
    repeat split; intros; congruence.
  - rewrite !run_fmap, !findBestSolution_nearest by done.
    rewrite !run_bind.
    destruct (run (Matching.findBestMatch _ _ _) dbg)
      as [o [s f]|]; simpl; [|by repeat split].
    repeat split; intros; congruence.
Qed.
(** X9: [getSolutionByIndex] returns the solution that the table's
    [findBestMatch] answers for the resolver forwarding the same index to a
    row's nested library; the fitness is dropped, and the call faults only if
    [findBestMatch] does.  It has no evaluation path: whatever the
    debug-selection flag, nothing of the table but [findBestMatch] takes
    part. *)
Theorem getSolutionByIndex_nearest_match tbl problem hardware index dbg :
  let resolver : Matching.Transform Element (option MySolution) :=
    λ library,
      SolutionLibrary.getSolutionByIndex library problem hardware index in
  (∀ out solution matched,
     run (Matching.findBestMatch tbl problem resolver) dbg
     = Done out (solution, matched) →
     run (ProblemMatchingLibrary.getSolutionByIndex (Some tbl) problem hardware
            index) dbg = Done out solution)
  ∧ (run (ProblemMatchingLibrary.getSolutionByIndex (Some tbl) problem hardware
            index) dbg = Fault
     ↔ run (Matching.findBestMatch tbl problem resolver) dbg = Fault)
  ∧ (∀ tbl',
       Matching.findBestMatch tbl' = Matching.findBestMatch tbl →
       run (ProblemMatchingLibrary.getSolutionByIndex (Some tbl') problem
              hardware index) dbg
       = run (ProblemMatchingLibrary.getSolutionByIndex (Some tbl) problem
                hardware index) dbg).
Proof.
  intros resolver. unfold ProblemMatchingLibrary.getSolutionByIndex.
  fold resolver. rewrite run_deref_bind, run_bind. repeat split.
  - intros out solution matched ->. simpl. by rewrite app_nil_r.
  - by destruct (run (Matching.findBestMatch tbl problem resolver) dbg)
      as [o [solution matched]|].
  - by destruct (run (Matching.findBestMatch tbl problem resolver) dbg)
      as [o [solution matched]|].
  - intros tbl' Hsame. by rewrite run_deref_bind, run_bind, Hsame.
Qed.

(** ** Nested matching libraries *)

(** X10: a matching library as the nested library of a row.  The resolver of
    the outer [findBestSolution] and [findTopSolutions], applied to an inner
    matching library, is the inner table's [findBestMatch] with the fitness
    dropped when the debug-selection flag is clear, and the inner table's
    [findBestEvaluationSolution] when it is set: the flag acts at every level
    and the fitness of an inner match never reaches the caller.  On an inner
    library with a null table the resolver faults. *)
Theorem nested_library_resolver tbl inherited problem hardware dbg :
  let resolver := ProblemMatchingLibrary.bestSolutionTransform problem hardware
  in
  (enableDebugSelection dbg = false →
   run (resolver (ProblemMatchingLibrary.library (Some tbl) inherited)) dbg
   = run (fst <$> Matching.findBestMatch tbl problem resolver) dbg)
  ∧ (enableDebugSelection dbg = true →
     run (resolver (ProblemMatchingLibrary.library (Some tbl) inherited)) dbg
     = run (Matching.findBestEvaluationSolution tbl problem hardware resolver)
         dbg)
  ∧ run (resolver (ProblemMatchingLibrary.library (None : option Table)
                     inherited)) dbg = Fault.
Proof.
  intros resolver. subst resolver.
  unfold ProblemMatchingLibrary.bestSolutionTransform at 1 3 5.
  cbn [ProblemMatchingLibrary.library SolutionLibrary.findBestSolution].
  rewrite !run_fmap. repeat split.
  - intros Hflag. rewrite findBestSolution_nearest by done.
    rewrite run_bind.
    destruct (run (Matching.findBestMatch _ _ _) dbg) as [o [s f]|]; [|done].
    simpl. by rewrite app_nil_r.
  - intros Hflag. rewrite findBestSolution_evaluation by done.
    rewrite run_bind.
    destruct (run (Matching.findBestEvaluationSolution _ _ _ _) dbg)
      as [o s|]; [|done].
    simpl. by rewrite app_nil_r.
  - unfold ProblemMatchingLibrary.findBestSolution. simpl.
    by destruct (enableDebugSelection dbg).
Qed.

(** ** [description] *)

(** X11: the description of a library with a null table differs from the
    description of a library with any table, whatever that table's own
    description. *)
Theorem description_null_distinct tbl :
  ProblemMatchingLibrary.description (Some tbl)
  ≠ ProblemMatchingLibrary.description (None : option Table).
Proof.
  unfold ProblemMatchingLibrary.description, concatenate,
    ProblemMatchingLibrary.type, ProblemMatchingLibrary.Type_.
  cbv [foldr String.append]. congruence.
Qed.
End MoreProperties.

(** * Properties of the sample's use of the heuristic results *)

Section GemmScaleABProperties.
Import GemmScaleAB.

Implicit Types (heuristicResult : list Z) (workspace_size : Z).
Implicit Types (remaining i j : nat).

Lemma workspaceLoop_in_bounds heuristicResult remaining i workspace_size :
  i + remaining ≤ length heuristicResult →
  ∃ w,
    workspaceLoop heuristicResult remaining i workspace_size = Some w
    ∧ (workspace_size ≤ w)%Z
    ∧ (∀ j x, i ≤ j < i + remaining → heuristicResult !! j = Some x →
         (x ≤ w)%Z)
    ∧ (w = workspace_size
       ∨ ∃ j, i ≤ j < i + remaining ∧ heuristicResult !! j = Some w).
Proof.
  revert i workspace_size.
  induction remaining as [|remaining IH]; intros i workspace_size Hlen.
  - exists workspace_size. repeat split; [lia|intros; lia|by left].
  - cbn [workspaceLoop].
    destruct (lookup_lt_is_Some_2 heuristicResult i) as [x Hx]; [lia|].
    rewrite Hx. cbn [mbind option_bind].
    destruct (IH (S i) (Z.max workspace_size x)) as (w & -> & Hle & Hall & Hin);
      [lia|].
    exists w. repeat split; [lia| |].
    + intros j y Hj Hy. destruct (decide (j = i)) as [->|].
      * rewrite Hx in Hy. injection Hy as ->. lia.
      * apply (Hall j y); [lia|done].
    + destruct Hin as [->|(j & Hj & Hw)].
      * destruct (Z.max_spec workspace_size x) as [[_ ->]|[_ ->]];
          [right; exists i; split; [lia|done]|by left].
      * right. exists j. split; [lia|done].
Qed.

Lemma workspaceLoop_overrun heuristicResult remaining i workspace_size :
  i ≤ length heuristicResult →
  length heuristicResult < i + remaining →
  workspaceLoop heuristicResult remaining i workspace_size = None.
Proof.
  revert i workspace_size.
  induction remaining as [|remaining IH]; intros i workspace_size Hi Hlen.
  - lia.
  - cbn [workspaceLoop].
    destruct (heuristicResult !! i) as [x|] eqn:Hx; [|done].
    cbn [mbind option_bind]. apply lookup_lt_Some in Hx. apply IH; lia.
Qed.

(** X12: when [hipblasLtMatmulAlgoGetHeuristic] reports between one and
    [request_solutions] results, [hipblasLtMatmul] is called on the first
    result's algorithm with a workspace size that is at least the configured
    maximum and at least the [workspaceSize] of every reported result, so it
    covers the need of the algorithm used; the size is the configured maximum
    or one of the reported sizes. *)
Theorem launch_workspace_covers max_workspace_size heuristicResult
    returnedAlgoCount :
  length heuristicResult = request_solutions →
  (0 < returnedAlgoCount ≤ Z.of_nat request_solutions)%Z →
  ∃ w,
    launch max_workspace_size heuristicResult returnedAlgoCount
    = Some (Matmul 0 w)
    ∧ (to_uint64 max_workspace_size ≤ w)%Z
    ∧ (∀ j x, (Z.of_nat j < returnedAlgoCount)%Z →
         heuristicResult !! j = Some x → (x ≤ w)%Z)
    ∧ (w = to_uint64 max_workspace_size
       ∨ ∃ j, (Z.of_nat j < returnedAlgoCount)%Z
              ∧ heuristicResult !! j = Some w).
Proof.
  intros Hlen Hcount. unfold launch, workspaceSize.
  case_decide; [lia|].
  destruct (workspaceLoop_in_bounds heuristicResult
              (Z.to_nat returnedAlgoCount) 0 (to_uint64 max_workspace_size))
    as (w & -> & Hle & Hall & Hin); [unfold request_solutions in *; lia|].
  destruct (lookup_lt_is_Some_2 heuristicResult 0) as [x0 ->];
    [unfold request_solutions in *; lia|].
  exists w. repeat split; [done| |].
  - intros j x Hj. apply Hall. lia.
  - destruct Hin as [->|(j & Hj & Hw)]; [by left|].
    right. exists j. split; [lia|done].
Qed.

(** X13: when every reported result needs no more workspace than the
    configured maximum (the preference handed to the heuristic), the size
    passed to [hipblasLtMatmul] is exactly the configured maximum. *)
Theorem launch_workspace_within_preference max_workspace_size heuristicResult
    returnedAlgoCount :
  length heuristicResult = request_solutions →
  (0 < returnedAlgoCount ≤ Z.of_nat request_solutions)%Z →
  (0 ≤ max_workspace_size < 2 ^ 63)%Z →
  (∀ j x, (Z.of_nat j < returnedAlgoCount)%Z →
     heuristicResult !! j = Some x → (x ≤ max_workspace_size)%Z) →
  launch max_workspace_size heuristicResult returnedAlgoCount
  = Some (Matmul 0 max_workspace_size).
Proof.
  intros Hlen Hcount Hmax Hfit.
  assert (to_uint64 max_workspace_size = max_workspace_size) as Hconv
    by (unfold to_uint64; apply Z.mod_small; lia).
  unfold launch, workspaceSize. case_decide; [lia|].
  destruct (workspaceLoop_in_bounds heuristicResult
              (Z.to_nat returnedAlgoCount) 0 (to_uint64 max_workspace_size))
    as (w & -> & Hle & Hall & Hin); [unfold request_solutions in *; lia|].
  destruct (lookup_lt_is_Some_2 heuristicResult 0) as [x0 ->];
    [unfold request_solutions in *; lia|].
  cbn [mbind option_bind]. do 2 f_equal.
  destruct Hin as [->|(j & Hj & Hw)]; [done|].
  specialize (Hfit j w ltac:(lia) Hw). rewrite Hconv in Hle. lia.
Qed.

(** X14: only a count of exactly zero stops the launch.  With a count of zero
    the function reports that no solution is valid; with a negative count the
    loop does not run and [hipblasLtMatmul] is still called, on the first
    slot of the array and the configured maximum; with a count above
    [request_solutions] the loop reads past the end of the array. *)
Theorem launch_count_edges max_workspace_size heuristicResult
    returnedAlgoCount :
  length heuristicResult = request_solutions →
  launch max_workspace_size heuristicResult 0 = Some NoValidSolution
  ∧ ((returnedAlgoCount < 0)%Z →
     launch max_workspace_size heuristicResult returnedAlgoCount
     = Some (Matmul 0 (to_uint64 max_workspace_size)))
  ∧ ((Z.of_nat request_solutions < returnedAlgoCount)%Z →
     launch max_workspace_size heuristicResult returnedAlgoCount = None).
Proof.
  intros Hlen. split; [done|]. split.
  - intros Hneg. unfold launch, workspaceSize. case_decide; [lia|].
    replace (Z.to_nat returnedAlgoCount) with 0 by lia.
    cbn [workspaceLoop mbind option_bind].
    by destruct (lookup_lt_is_Some_2 heuristicResult 0) as [x0 ->];
      [unfold request_solutions in *; lia|].
  - intros Hmany. unfold launch, workspaceSize. case_decide; [lia|].
    by rewrite workspaceLoop_overrun
      by (unfold request_solutions in *; lia).
Qed.
End GemmScaleABProperties.

(** ** The further properties at the samples *)

(** X1 at a stub table whose second row faults: the set of the first row is
    not returned. *)
Lemma findAllSolutions_returns_iff_witness :
  let tbl := Stub.table (None, 0%Z) [] [Sample.leaf (Some 50); Stub.faulty] in
  run (ProblemMatchingLibrary.findAllSolutions (Some tbl) 0 tt DEFAULT)
      Sample.quiet = Fault.
Proof.
  intros tbl.
  destruct (findAllSolutions_returns_iff tbl 0 [] tt DEFAULT Sample.quiet)
    as [[Hrows _] _].
  destruct (run (ProblemMatchingLibrary.findAllSolutions (Some tbl) 0 tt
                   DEFAULT) Sample.quiet) as [out result|]; [|reflexivity].
  exfalso. apply (Hrows ltac:(discriminate) Stub.faulty); [|reflexivity].
  right. left.
Defined.

(** X2 at two stub tables handing out the same two rows in opposite order. *)
Lemma findAllSolutions_order_irrelevant_witness :
  let tbl := Stub.table (None, 0%Z) []
               [Sample.leaf (Some 50); Sample.leaf (Some 20)] in
  let tbl' := Stub.table (None, 0%Z) []
                [Sample.leaf (Some 20); Sample.leaf (Some 50)] in
  ProblemMatchingLibrary.matchesFor tbl 0 DEFAULT
    ≡ₚ ProblemMatchingLibrary.matchesFor tbl' 0 DEFAULT
  ∧ value (run (ProblemMatchingLibrary.findAllSolutions (Some tbl) 0 tt
                  DEFAULT) Sample.quiet)
    = value (run (ProblemMatchingLibrary.findAllSolutions (Some tbl') 0 tt
                    DEFAULT) Sample.quiet).
Proof.
  intros tbl tbl'.
  assert (Hperm : ProblemMatchingLibrary.matchesFor tbl 0 DEFAULT
                    ≡ₚ ProblemMatchingLibrary.matchesFor tbl' 0 DEFAULT)
    by apply perm_swap.
  split; [exact Hperm|].
  apply (findAllSolutions_order_irrelevant tbl tbl' 0 [] tt DEFAULT
           Sample.quiet Hperm).
Defined.

(** X3 at a stub table of two leaves, with all flags clear and with the
    printing flags set. *)
Lemma findAllSolutions_flags_irrelevant_witness :
  let tbl := Stub.table (None, 0%Z) []
               [Sample.leaf (Some 50); Sample.leaf None] in
  (∀ row,
     row ∈ ProblemMatchingLibrary.matchesFor tbl 0 DEFAULT →
     value (run (SolutionLibrary.findAllSolutions row 0 tt DEFAULT)
                Sample.quiet)
     = value (run (SolutionLibrary.findAllSolutions row 0 tt DEFAULT)
                  Sample.verbose))
  ∧ value (run (ProblemMatchingLibrary.findAllSolutions (Some tbl) 0 tt
                  DEFAULT) Sample.quiet)
    = value (run (ProblemMatchingLibrary.findAllSolutions (Some tbl) 0 tt
                    DEFAULT) Sample.verbose).
Proof.
  intros tbl.
  assert (Hsame : ∀ row,
     row ∈ ProblemMatchingLibrary.matchesFor tbl 0 DEFAULT →
     value (run (SolutionLibrary.findAllSolutions row 0 tt DEFAULT)
                Sample.quiet)
     = value (run (SolutionLibrary.findAllSolutions row 0 tt DEFAULT)
                  Sample.verbose)).
  { apply (proj1 (Forall_forall _ _)). repeat constructor. }
  split; [exact Hsame|].
  apply (findAllSolutions_flags_irrelevant tbl 0 tt DEFAULT Sample.quiet
           Sample.verbose Hsame).
Defined.

(** X4 at a stub table of two leaves. *)
Lemma findAllSolutionsGroupedGemm_singleton_witness :
  let tbl := Stub.table (None, 0%Z) []
               [Sample.leaf (Some 50); Sample.leaf None] in
  (∀ row,
     row ∈ ProblemMatchingLibrary.matchesFor tbl 0 DEFAULT →
     run (SolutionLibrary.findAllSolutionsGroupedGemm row [0] tt DEFAULT)
         Sample.verbose
     = run (SolutionLibrary.findAllSolutions row 0 tt DEFAULT) Sample.verbose)
  ∧ run (ProblemMatchingLibrary.findAllSolutionsGroupedGemm (Some tbl) [0] tt
           DEFAULT) Sample.verbose
    = run (ProblemMatchingLibrary.findAllSolutions (Some tbl) 0 tt DEFAULT)
        Sample.verbose.
Proof.
  intros tbl.
  assert (Hsame : ∀ row,
     row ∈ ProblemMatchingLibrary.matchesFor tbl 0 DEFAULT →
     run (SolutionLibrary.findAllSolutionsGroupedGemm row [0] tt DEFAULT)
         Sample.verbose
     = run (SolutionLibrary.findAllSolutions row 0 tt DEFAULT) Sample.verbose).
  { apply (proj1 (Forall_forall _ _)). repeat constructor. }
  split; [exact Hsame|].
  apply (findAllSolutionsGroupedGemm_singleton tbl 0 tt DEFAULT Sample.verbose
           Hsame).
Defined.

(** X5 at an outer stub table whose two rows are matching libraries, one over
    the two-row table of the specification and one over a stub table. *)
Lemma findAllSolutions_two_levels_witness :
  let inherited : list nat → unit → option Z → M (option nat * option Z) :=
    λ _ _ fitness, mret (None, fitness) in
  let inner :=
    [MatchingTableSpec.table Sample.twoRows;
     Stub.table (None, 0%Z) [] [Sample.leaf (Some 7)]] in
  let tbl :=
    Stub.table (None, 0%Z) []
      ((λ t, ProblemMatchingLibrary.library (Some t) inherited) <$> inner) in
  ProblemMatchingLibrary.matchesFor tbl 0 DEFAULT
    = (λ t, ProblemMatchingLibrary.library (Some t) inherited) <$> inner
  ∧ ∃ out result,
      run (ProblemMatchingLibrary.findAllSolutions (Some tbl) 0 tt DEFAULT)
          Sample.quiet = Done out result
      ∧ (Some 7 ∈ result ↔
         ∃ t leaf o s,
           t ∈ inner
           ∧ leaf ∈ ProblemMatchingLibrary.matchesFor t 0 DEFAULT
           ∧ run (SolutionLibrary.findAllSolutions leaf 0 tt DEFAULT)
                 Sample.quiet = Done o s
           ∧ Some 7 ∈ s).
Proof.
  intros inherited inner tbl. split; [reflexivity|].
  destruct (findAllSolutions_two_levels tbl inner inherited 0 tt DEFAULT
              Sample.quiet eq_refl) as (out & result & Hrun & Hmem).
  { intros t leaf Ht.
    apply elem_of_cons in Ht as [->|Ht];
      [|apply elem_of_cons in Ht as [->|Ht]; [|by apply elem_of_nil in Ht]].
    - change (leaf ∈ [Sample.leaf (Some 20); Sample.leaf (Some 50)] →
              run (SolutionLibrary.findAllSolutions leaf 0 tt DEFAULT)
                  Sample.quiet ≠ Fault).
      revert leaf. apply (proj1 (Forall_forall _ _)).
      repeat constructor; discriminate.
    - change (leaf ∈ [Sample.leaf (Some 7)] →
              run (SolutionLibrary.findAllSolutions leaf 0 tt DEFAULT)
                  Sample.quiet ≠ Fault).
      revert leaf. apply (proj1 (Forall_forall _ _)).
      repeat constructor; discriminate. }
  exists out, result. split; [exact Hrun|]. apply Hmem.
Defined.

(** X6 at a stub table whose [findTopMatch] answers a null pointer. *)
Lemma findTopSolutions_null_pointer_witness :
  let tbl := Stub.table (None, 0%Z) [Some 1; None] [] in
  run (Matching.findTopMatch tbl 0
         (ProblemMatchingLibrary.bestSolutionTransform 0 tt) 3) Sample.verbose
  = Done [] [Some 1; None]
  ∧ run (ProblemMatchingLibrary.findTopSolutions (Some tbl) 0 tt 3)
        Sample.quiet = Done [] [Some 1; None]
  ∧ run (ProblemMatchingLibrary.findTopSolutions (Some tbl) 0 tt 3)
        Sample.verbose = Fault.
Proof.
  intros tbl. split; [reflexivity|]. split.
  - apply (findTopSolutions_null_pointer tbl 0 tt 3%Z Sample.quiet []
             [Some 1; None] eq_refl); reflexivity.
  - apply (findTopSolutions_null_pointer tbl 0 tt 3%Z Sample.verbose []
             [Some 1; None] eq_refl); [reflexivity|].
    right. left.
Defined.

(** X7 at a stub table whose [findTopMatch] answers two solutions. *)
Lemma findTopSolutions_trace_witness :
  let tbl := Stub.table (None, 0%Z) [Some 10; Some 30] [] in
  printLibraryLogicIndex Sample.verbose = true
  ∧ run (ProblemMatchingLibrary.findTopSolutions (Some tbl) 0 tt 3)
        Sample.verbose
    = Done ["Library logic index of top solutions: ";
            "10"; ", "; "30"; ", "; endl]
           [Some 10; Some 30].
Proof.
  intros tbl. split; [reflexivity|].
  rewrite (findTopSolutions_trace tbl 0 tt 3%Z Sample.verbose [] [10; 30]
             eq_refl eq_refl).
  vm_compute. reflexivity.
Defined.

(** X12 at two reported results needing 100 and 200 bytes, under a maximum of
    150 bytes. *)
Lemma launch_workspace_covers_witness :
  length [100; 200; 0; 0; 0]%Z = GemmScaleAB.request_solutions
  ∧ (0 < 2 ≤ Z.of_nat GemmScaleAB.request_solutions)%Z
  ∧ ∃ w,
      GemmScaleAB.launch 150 [100; 200; 0; 0; 0]%Z 2
      = Some (GemmScaleAB.Matmul 0 w)
      ∧ (GemmScaleAB.to_uint64 150 ≤ w)%Z.
Proof.
  split; [reflexivity|].
  split; [unfold GemmScaleAB.request_solutions; lia|].
  destruct (launch_workspace_covers 150 [100; 200; 0; 0; 0]%Z 2
              eq_refl) as (w & Hrun & Hle & _).
  { unfold GemmScaleAB.request_solutions. lia. }
  exists w. split; [exact Hrun|exact Hle].
Defined.

(** X13 at two reported results needing 100 and 120 bytes, under a maximum of
    150 bytes. *)
Lemma launch_workspace_within_preference_witness :
  length [100; 120; 0; 0; 0]%Z = GemmScaleAB.request_solutions
  ∧ (0 ≤ 150 < 2 ^ 63)%Z
  ∧ GemmScaleAB.launch 150 [100; 120; 0; 0; 0]%Z 2
    = Some (GemmScaleAB.Matmul 0 150).
Proof.
  split; [reflexivity|]. split; [lia|].
  apply (launch_workspace_within_preference 150
           [100; 120; 0; 0; 0]%Z 2 eq_refl);
    [unfold GemmScaleAB.request_solutions; lia|lia|].
  intros j x Hj Hx.
  destruct j as [|[|j]]; [injection Hx as <-; lia..|lia].
Defined.

(** X14 at an array of five slots and a count of seven. *)
Lemma launch_count_edges_witness :
  length [100; 200; 0; 0; 0]%Z = GemmScaleAB.request_solutions
  ∧ GemmScaleAB.launch 150 [100; 200; 0; 0; 0]%Z 0
    = Some GemmScaleAB.NoValidSolution
  ∧ GemmScaleAB.launch 150 [100; 200; 0; 0; 0]%Z 7 = None.
Proof.
  split; [reflexivity|].
  destruct (launch_count_edges 150 [100; 200; 0; 0; 0]%Z 7
              eq_refl) as (Hzero & _ & Hmany).
  split; [exact Hzero|]. apply Hmany.
  unfold GemmScaleAB.request_solutions. lia.
Defined.
